(** * uoma-plugin-sdk: the plugin-side SDK of [src/index.js]

    A shallow embedding of the module and the proofs of its properties.

    The module keeps two constant tables ([permissions], [eventList]), one
    mutable table ([eventCallbackList]) and writes one global
    ([window.uomaPluginId]).  Its asynchronous part is a request/response
    exchange through [postMessage] guarded by a one second timer.

    Conventions of the embedding.
    - A JavaScript string is a [string]; one character stands for one
      UTF-16 code unit, so [String.length] is [.length].
    - A plain object used as a table finds a key among its own properties
      first, then on [Object.prototype], and is [undefined] otherwise
      ([property]).
    - Closures handed to the browser (the message listener and the timer
      callback of [checkPermission]) are kept as data and run by [dispatch].
    - A promise made by [timedOutPromise] is a number; its settlement is
      looked up in the [promises] table of the window. *)

From Stdlib Require Import ZArith Ascii String List Bool Lia.
From stdpp Require Import gmap strings list fin_maps.
Import ListNotations.

Local Open Scope string_scope.
Local Open Scope Z_scope.

(** ** Values *)

(** The values that reach the module.  A function is known by its identity
    only; [VBuiltin k] is the member [k] of [Object.prototype], reached by
    reading the key [k] of a plain object that has no such own property. *)
Inductive value :=
| VUndefined
| VNull
| VBool (b : bool)
| VNum (n : Z)
| VStr (s : string)
| VFun (f : nat)
| VBuiltin (k : string).

(** The own property names of [Object.prototype] (ECMAScript, with the
    legacy accessors every browser ships). *)
Definition objectPrototypeKeys : list string :=
  [ "constructor"; "hasOwnProperty"; "isPrototypeOf"; "propertyIsEnumerable";
    "toLocaleString"; "toString"; "valueOf"; "__proto__";
    "__defineGetter__"; "__defineSetter__"; "__lookupGetter__";
    "__lookupSetter__" ].

Definition inherited (k : string) : bool :=
  existsb (String.eqb k) objectPrototypeKeys.

(** [typeof v].  Every member of [Object.prototype] is a function, except
    [__proto__], which reads as [Object.prototype] itself. *)
Definition typeof (v : value) : string :=
  match v with
  | VUndefined => "undefined"
  | VNull => "object"
  | VBool _ => "boolean"
  | VNum _ => "number"
  | VStr _ => "string"
  | VFun _ => "function"
  | VBuiltin k => if String.eqb k "__proto__" then "object" else "function"
  end.

(** ToBoolean. *)
Definition truthy (v : value) : bool :=
  match v with
  | VUndefined | VNull => false
  | VBool b => b
  | VNum n => negb (n =? 0)
  | VStr s => negb (String.eqb s "")
  | VFun _ | VBuiltin _ => true
  end.

(** [a === b].  Objects are equal when they are the same object. *)
Definition strict_eq (a b : value) : bool :=
  match a, b with
  | VUndefined, VUndefined => true
  | VNull, VNull => true
  | VBool x, VBool y => Bool.eqb x y
  | VNum x, VNum y => x =? y
  | VStr x, VStr y => String.eqb x y
  | VFun x, VFun y => Nat.eqb x y
  | VBuiltin x, VBuiltin y => String.eqb x y
  | _, _ => false
  end.

(** ** Strings *)

(** [s.split(sep)] for a separator of one character. *)
Fixpoint split (sep : ascii) (s : string) : list string :=
  match s with
  | EmptyString => [ "" ]
  | String c rest =>
      if Ascii.eqb c sep then "" :: split sep rest
      else match split sep rest with
           | x :: xs => String c x :: xs
           | [] => [ String c "" ]
           end
  end.

(** [a.join(',')]. *)
Fixpoint join (a : list string) : string :=
  match a with
  | [] => ""
  | [ x ] => x
  | x :: rest => x ++ "," ++ join rest
  end.

Definition isDigit (c : ascii) : bool :=
  let n := nat_of_ascii c in ((48 <=? n) && (n <=? 57))%nat.

Fixpoint decimal (acc : Z) (s : string) : Z :=
  match s with
  | EmptyString => acc
  | String c rest => decimal (10 * acc + (Z.of_nat (nat_of_ascii c) - 48)) rest
  end.

Fixpoint allChars (p : ascii -> bool) (s : string) : bool :=
  match s with
  | EmptyString => true
  | String c rest => p c && allChars p rest
  end.

(** The characters a StrNumericLiteral or the white space around it can be
    made of: digits, the hexadecimal letters, the radix marks [x o b], the
    point, the exponent mark, the signs, the letters of [Infinity], blanks. *)
Definition numericAlphabet (c : ascii) : bool :=
  isDigit c ||
  existsb (Ascii.eqb c)
    (list_ascii_of_string "abcdefABCDEFxXoObB.eE+-Infinity ").

(** StringToNumber, [None] standing for NaN.  The empty string is 0 and a
    run of decimal digits is its value; every other string is taken to be
    NaN.  That is what JavaScript does whenever the string has a character
    outside [numericAlphabet]; the literals with a sign, a fraction, an
    exponent or a radix prefix are not evaluated here, and
    [permissions_rows_not_numeric] below shows that no row of the table is
    one of them. *)
Definition StringToNumber (s : string) : option Z :=
  if allChars isDigit s then Some (decimal 0 s) else None.

(** ToInt32 of a number: NaN is 0, an integer wraps to 32 bits, signed. *)
Definition ToInt32 (n : option Z) : Z :=
  match n with
  | None => 0
  | Some z => (z + 2 ^ 31) mod 2 ^ 32 - 2 ^ 31
  end.

(** ** Tables *)

(** What reading [obj[k]] of a plain object finds. *)
Inductive property (A : Type) :=
| Own (a : A)
| Inherited (k : string)
| Missing.
Arguments Own {A} a.
Arguments Inherited {A} k.
Arguments Missing {A}.

Fixpoint assoc {A : Type} (k : string) (tbl : list (string * A)) : option A :=
  match tbl with
  | [] => None
  | (k', a) :: rest => if String.eqb k k' then Some a else assoc k rest
  end.

(** [tbl[k]] for a constant object literal. *)
Definition getProperty {A : Type} (tbl : list (string * A)) (k : string)
  : property A :=
  match assoc k tbl with
  | Some a => Own a
  | None => if inherited k then Inherited k else Missing
  end.

Definition permissions : list (string * list string) :=
  [ ("global",
      [ "language:read"; "theme:read"; "account:read"; "backend:read";
        "widgets:read"; "account:write"; "backend:write";
        "notification:write" ]);
    ("clock", [ "timezone:read"; "timezone:write" ]);
    ("todo", [ "list:read"; "list:write" ]);
    ("quickLink", [ "custom:read"; "custom:write" ]);
    ("course", [ "list:read"; "list:write" ]);
    ("attendance", [ "absentList:read" ]);
    ("calendar", [ "events:read"; "view:read"; "view:write" ]);
    ("coursework", [ "list:read"; "list:write" ]);
    ("quickNote",
      [ "list:read"; "list:write"; "noteContent:read"; "noteContent:write";
        "view:read"; "view:write" ]);
    ("inbox", [ "list:read"; "mailContent:read"; "view:read"; "view:write" ]);
    ("gradeSummary", [ "list:read" ]);
    ("plugin", [ "runningPlugins:read" ]) ].

Definition eventList : list (string * list (string * string)) :=
  [ ("global",
      [ ("updateLanguage", "language:read"); ("updateTheme", "theme:read");
        ("updateAccount", "account:read"); ("updateBackend", "backend:read");
        ("updateWidgets", "widgets:read") ]);
    ("clock", [ ("updateTimezone", "timezone:read") ]);
    ("todo",
      [ ("done", "list:read"); ("undone", "list:read"); ("add", "list:read");
        ("remove", "list:read") ]);
    ("quickLink",
      [ ("addCustomLink", "custom:read"); ("removeCustomLink", "custom:read") ]);
    ("course",
      [ ("add", "list:read"); ("remove", "list:read"); ("update", "list:read") ]);
    ("attendance", [ ("update", "absentList:read") ]);
    ("calendar", [ ("update", "events:read") ]);
    ("coursework",
      [ ("done", "list:read"); ("undone", "list:read"); ("add", "list:read");
        ("remove", "list:read") ]);
    ("quickNote", [ ("add", "list:read"); ("remove", "list:read") ]);
    ("inbox", [ ("update", "list:read"); ("send", "view:read") ]);
    ("gradeSummary", [ ("update", "list:read") ]);
    ("plugin", [ ("updateRunningPlugins", "runningPlugins:read") ]) ].

(** ** isValidPermissionName *)

(** The right operand of [&] in [isValidPermissionName], through ToNumeric
    and ToInt32.  An array goes through [toString], that is [join]; a
    function, [Object.prototype] and [undefined] are NaN. *)
Definition bitOperand (p : property (list string)) : Z :=
  match p with
  | Own row => ToInt32 (StringToNumber (join row))
  | Inherited _ => ToInt32 None
  | Missing => ToInt32 None
  end.

(** [arr.includes(x)].  The call is only reached on an array: on any other
    operand the guard of [isValidPermissionName] is already 0. *)
Definition includes (p : property (list string)) (x : string) : bool :=
  match p with
  | Own row => existsb (String.eqb x) row
  | _ => false
  end.

(** [isValidPermissionName(name)].  The guard is
    [splitedName.length === 2 & permissions[splitedName[0]]] with the
    bitwise [&]: both operands are turned into 32-bit integers. *)
Definition isValidPermissionName (name : value) : bool :=
  match name with
  | VStr s =>
      let splitedName := split "/" s in
      let entry := getProperty permissions (nth 0 splitedName "") in
      if negb (Z.land (Z.b2z (Nat.eqb (List.length splitedName) 2))
                      (bitOperand entry) =? 0)
      then includes entry (nth 1 splitedName "")
      else false
  | _ => false
  end.

(** The validity test in the words of the specification: exactly two
    non-empty segments around [/], the first a namespace of the catalog, the
    second a member of that namespace's list. *)
Definition isValidCapability_spec (name : value) : bool :=
  match name with
  | VStr s =>
      match split "/" s with
      | [ ns; leaf ] =>
          negb (String.eqb ns "") && negb (String.eqb leaf "") &&
          match assoc ns permissions with
          | Some row => existsb (String.eqb leaf) row
          | None => false
          end
      | _ => false
      end
  | _ => false
  end.


(** ** Errors and promises *)

(** One constructor for each [new Error(...)] of the module, in the order of
    the source, and one for the TypeError the engine raises when a method is
    called on a value that has none. *)
Inductive error :=
| PluginIdNotString (ty : string)      (* Plugin ID should be a string, not ${typeof pluginId}. *)
| InvalidPluginId                      (* Invalid plugin ID. *)
| CallInitFirst                        (* Please call uoma.init(pluginId) first. *)
| PermissionNotString (ty : string)    (* Permission name should be a string, not ${typeof permission}. *)
| InvalidPermissionName (permission : string) (* Invalid permission name ${permission}. *)
| TimedOut                             (* Timed out. *)
| EventNameNotString (ty : string)     (* Event name should be a string, not ${typeof target}. *)
| CallbackNotFunction (ty : string)    (* Event callback should be a function, not ${typeof callback}. *)
| NeedsPermission (permission : value) (* This event needs permission ${...}, which this plugin doesn't have. *)
| UnknownEventNamed (target : string)  (* Unknown event ${target}. *)
| CannotFindCallback                   (* Cannot find callback. *)
| NoCallbackRegistered                 (* Not callback registered on this event. *)
| TypeError.

(** The error kinds of the specification. *)
Inductive kind :=
| NotInitialized | InvalidArgument | UnknownEvent | PermissionDenied
| Timeout | NotFound | EngineError.

Definition kindOf (e : error) : kind :=
  match e with
  | PluginIdNotString _ | InvalidPluginId => InvalidArgument
  | CallInitFirst => NotInitialized
  | PermissionNotString _ | InvalidPermissionName _ => InvalidArgument
  | TimedOut => Timeout
  | EventNameNotString _ | CallbackNotFunction _ => InvalidArgument
  | NeedsPermission _ => PermissionDenied
  | UnknownEventNamed _ => UnknownEvent
  | CannotFindCallback | NoCallbackRegistered => NotFound
  | TypeError => EngineError
  end.

(** How a promise has settled. *)
Inductive settled :=
| Resolved (v : value)
| Rejected (e : error).

(** A promise as a caller receives it: settled from the start
    ([Promise.reject(...)]), or made by [timedOutPromise] and settled later. *)
Inductive promise :=
| Settled (r : settled)
| Deferred (p : nat).

(** The result of a synchronous call. *)
Inductive completion (A : Type) :=
| Returns (a : A)
| Throws (e : error).
Arguments Returns {A} a.
Arguments Throws {A} e.

(** ** The window *)

(** The listener of [checkPermission]: a closure over [permission] and over
    the [resolve] of the promise it serves. *)
Record listener := {
  listener_promise : nat;
  listener_permission : string
}.

(** The [cleanUp] closure of [checkPermission]. *)
Inductive cleanup :=
| RemoveMessageListener (l : nat).

(** The callback [timedOutPromise] gives to [setTimeout]: it runs [cleanUp],
    then rejects the promise. *)
Record timer := {
  timer_promise : nat;
  timer_cleanUp : cleanup;
  timer_delay : Z
}.

(** A message posted to [window.parent], for [window.location.origin]. *)
Record message := {
  action : string;
  id : value;
  data : string
}.

Record window := {
  (* the surroundings *)
  parentIsWindow : bool;               (* window.parent === window *)
  parentIsUoma : option value;         (* window.parent.isUoma, None when reading it throws *)
  builtinMember : string -> string -> value;
                                       (* Object.prototype[a][b] *)
  (* the state the module owns *)
  uomaPluginId : value;                (* window.uomaPluginId *)
  eventCallbackList : gmap string (gmap string (list value));
  (* the browser's side of the exchange *)
  messageListeners : list listener;
  storageListeners : nat;
  posted : list message;
  timers : list timer;
  promises : gmap nat settled;         (* absent: still pending *)
  nextPromise : nat
}.

Definition set_uomaPluginId (v : value) (w : window) : window :=
  {| parentIsWindow := parentIsWindow w; parentIsUoma := parentIsUoma w;
     builtinMember := builtinMember w; uomaPluginId := v;
     eventCallbackList := eventCallbackList w;
     messageListeners := messageListeners w;
     storageListeners := storageListeners w; posted := posted w;
     timers := timers w; promises := promises w;
     nextPromise := nextPromise w |}.

Definition set_eventCallbackList (r : gmap string (gmap string (list value)))
  (w : window) : window :=
  {| parentIsWindow := parentIsWindow w; parentIsUoma := parentIsUoma w;
     builtinMember := builtinMember w; uomaPluginId := uomaPluginId w;
     eventCallbackList := r;
     messageListeners := messageListeners w;
     storageListeners := storageListeners w; posted := posted w;
     timers := timers w; promises := promises w;
     nextPromise := nextPromise w |}.

Definition set_messageListeners (l : list listener) (w : window) : window :=
  {| parentIsWindow := parentIsWindow w; parentIsUoma := parentIsUoma w;
     builtinMember := builtinMember w; uomaPluginId := uomaPluginId w;
     eventCallbackList := eventCallbackList w;
     messageListeners := l;
     storageListeners := storageListeners w; posted := posted w;
     timers := timers w; promises := promises w;
     nextPromise := nextPromise w |}.

Definition set_storageListeners (n : nat) (w : window) : window :=
  {| parentIsWindow := parentIsWindow w; parentIsUoma := parentIsUoma w;
     builtinMember := builtinMember w; uomaPluginId := uomaPluginId w;
     eventCallbackList := eventCallbackList w;
     messageListeners := messageListeners w;
     storageListeners := n; posted := posted w;
     timers := timers w; promises := promises w;
     nextPromise := nextPromise w |}.

Definition set_posted (l : list message) (w : window) : window :=
  {| parentIsWindow := parentIsWindow w; parentIsUoma := parentIsUoma w;
     builtinMember := builtinMember w; uomaPluginId := uomaPluginId w;
     eventCallbackList := eventCallbackList w;
     messageListeners := messageListeners w;
     storageListeners := storageListeners w; posted := l;
     timers := timers w; promises := promises w;
     nextPromise := nextPromise w |}.

Definition set_timers (l : list timer) (w : window) : window :=
  {| parentIsWindow := parentIsWindow w; parentIsUoma := parentIsUoma w;
     builtinMember := builtinMember w; uomaPluginId := uomaPluginId w;
     eventCallbackList := eventCallbackList w;
     messageListeners := messageListeners w;
     storageListeners := storageListeners w; posted := posted w;
     timers := l; promises := promises w;
     nextPromise := nextPromise w |}.

Definition set_promises (m : gmap nat settled) (w : window) : window :=
  {| parentIsWindow := parentIsWindow w; parentIsUoma := parentIsUoma w;
     builtinMember := builtinMember w; uomaPluginId := uomaPluginId w;
     eventCallbackList := eventCallbackList w;
     messageListeners := messageListeners w;
     storageListeners := storageListeners w; posted := posted w;
     timers := timers w; promises := m;
     nextPromise := nextPromise w |}.

Definition set_nextPromise (n : nat) (w : window) : window :=
  {| parentIsWindow := parentIsWindow w; parentIsUoma := parentIsUoma w;
     builtinMember := builtinMember w; uomaPluginId := uomaPluginId w;
     eventCallbackList := eventCallbackList w;
     messageListeners := messageListeners w;
     storageListeners := storageListeners w; posted := posted w;
     timers := timers w; promises := promises w;
     nextPromise := n |}.

(** The window as the module finds it when it is loaded: nothing set,
    [eventCallbackList = {}], nothing registered. *)
Definition freshWindow (top : bool) (flag : option value)
  (members : string -> string -> value) : window :=
  {| parentIsWindow := top; parentIsUoma := flag; builtinMember := members;
     uomaPluginId := VUndefined; eventCallbackList := ∅;
     messageListeners := []; storageListeners := 0%nat; posted := [];
     timers := []; promises := ∅; nextPromise := 0%nat |}.

(** ** Browser primitives *)

(** [window.addEventListener('message', l)]. *)
Definition addMessageListener (l : listener) (w : window) : window :=
  set_messageListeners (messageListeners w ++ [ l ]) w.

(** [window.removeEventListener('message', l)], the listener being the one
    made for promise [p]. *)
Definition removeMessageListener (p : nat) (w : window) : window :=
  set_messageListeners
    (List.filter (fun l => negb (Nat.eqb (listener_promise l) p))
       (messageListeners w)) w.

(** [window.parent.postMessage(m, window.location.origin)]. *)
Definition postMessage (m : message) (w : window) : window :=
  set_posted (posted w ++ [ m ]) w.

Definition setTimeout (t : timer) (w : window) : window :=
  set_timers (timers w ++ [ t ]) w.

(** [resolve(v)] and [reject(e)] of promise [p]: the first call settles the
    promise, a later one does nothing. *)
Definition settle (p : nat) (r : settled) (w : window) : window :=
  match promises w !! p with
  | Some _ => w
  | None => set_promises (<[p := r]> (promises w)) w
  end.

Definition runCleanUp (c : cleanup) (w : window) : window :=
  match c with
  | RemoveMessageListener l => removeMessageListener l w
  end.

Definition listenerRegistered (p : nat) (w : window) : bool :=
  existsb (fun l => Nat.eqb (listener_promise l) p) (messageListeners w).

(** ** timedOutPromise *)

(** [timedOutPromise(resolvePromise, cleanUp)]: makes the promise, runs
    [resolvePromise(resolve)] at once, and sets a timer of 1000 ms whose
    callback runs [cleanUp()] and then [reject(new Error('Timed out.'))].
    Both arguments are given the number of the new promise, which stands
    for its [resolve] and for the listener made for it. *)
Definition timedOutPromise (resolvePromise : nat -> window -> window)
  (cleanUp : nat -> cleanup) (w : window) : window * promise :=
  let p := nextPromise w in
  let w1 := resolvePromise p (set_nextPromise (S p) w) in
  (setTimeout {| timer_promise := p; timer_cleanUp := cleanUp p;
                 timer_delay := 1000 |} w1,
   Deferred p).

(** ** init *)

(** [isUoma()]: the flag of the parent, [false] when reading it throws. *)
Definition isUoma (w : window) : value :=
  match parentIsUoma w with
  | Some flag => flag
  | None => VBool false
  end.

Definition init (w : window) (pluginId : value) : window * completion bool :=
  match pluginId with
  | VStr s =>
      if (String.length s <? 4)%nat then (w, Throws InvalidPluginId)
      else if parentIsWindow w || negb (truthy (isUoma w))
      then (w, Returns false)
      else (set_storageListeners (S (storageListeners w))
              (set_uomaPluginId pluginId w),
            Returns true)
  | _ => (w, Throws (PluginIdNotString (typeof pluginId)))
  end.

(** The guard every other method starts with:
    [typeof window.uomaPluginId !== 'string' || window.uomaPluginId.length < 4]. *)
Definition notInitialized (w : window) : bool :=
  match uomaPluginId w with
  | VStr s => (String.length s <? 4)%nat
  | _ => true
  end.

(** ** checkPermission *)

(** The exchange with the host, the part of [checkPermission] after its
    three guards: the listener is registered, the request is posted, the
    timer is set. *)
Definition checkPermission_exchange (w : window) (permission : string)
  : window * promise :=
  timedOutPromise
    (fun resolve w =>
       postMessage {| action := "checkPermission"; id := uomaPluginId w;
                      data := permission |}
         (addMessageListener {| listener_promise := resolve;
                                listener_permission := permission |} w))
    (fun listener => RemoveMessageListener listener)
    w.

Definition checkPermission (w : window) (permission : value)
  : window * promise :=
  if notInitialized w then (w, Settled (Rejected CallInitFirst))
  else match permission with
       | VStr s =>
           if negb (isValidPermissionName permission)
           then (w, Settled (Rejected (InvalidPermissionName s)))
           else checkPermission_exchange w s
       | _ => (w, Settled (Rejected (PermissionNotString (typeof permission))))
       end.

(** ** The event loop *)

(** What the browser hands back to the page: a message event, or the firing
    of the timer set for promise [p].  Of a message event the listener reads
    [e.source === window.parent], then [e.data.action] and [e.data.data];
    [act] is [undefined] when the data has no such property.  (Data that is
    [null] or [undefined] makes a listener throw, as far as it gets to read
    it, which changes nothing either.)  The data has come through the
    structured clone, so it holds no function and [resolve] takes it as a
    plain value. *)
Inductive event :=
| MessageEvent (fromParent : bool) (act dat : value)
| TimerEvent (p : nat).

(** The body of the listener of [checkPermission]. *)
Definition callListener (fromParent : bool) (act dat : value) (w : window)
  (l : listener) : window :=
  if fromParent &&
     strict_eq act (VStr ("checkPermission:" ++ listener_permission l))
  then settle (listener_promise l) (Resolved dat) w
  else w.

Definition findTimer (p : nat) (w : window) : option timer :=
  List.find (fun t => Nat.eqb (timer_promise t) p) (timers w).

Definition dropTimer (p : nat) (w : window) : window :=
  set_timers
    (List.filter (fun t => negb (Nat.eqb (timer_promise t) p)) (timers w)) w.

(** The callback of [setTimeout] in [timedOutPromise]. *)
Definition runTimer (t : timer) (w : window) : window :=
  settle (timer_promise t) (Rejected TimedOut) (runCleanUp (timer_cleanUp t) w).

Definition dispatch (w : window) (ev : event) : window :=
  match ev with
  | MessageEvent fromParent act dat =>
      fold_left (callListener fromParent act dat) (messageListeners w) w
  | TimerEvent p =>
      match findTimer p w with
      | Some t => runTimer t (dropTimer p w)
      | None => w
      end
  end.

(** ** The subscription registry *)

(** [eventList[a] && eventList[a][b]]: the permission an event needs.  A
    catalogue event gives its permission string; a key that is only found
    on [Object.prototype] gives the built-in member it names. *)
Definition requiredPermission (w : window) (a b : string) : value :=
  match getProperty eventList a with
  | Own events =>
      match getProperty events b with
      | Own permission => VStr permission
      | Inherited k => VBuiltin k
      | Missing => VUndefined
      end
  | Inherited k => builtinMember w k b
  | Missing => VUndefined
  end.

(** What [eventCallbackList[a] && eventCallbackList[a][b]] finds: an array of
    callbacks that [on] made, or some other value (a built-in member, or a
    falsy value when there is nothing). *)
Inductive slot :=
| Callbacks (l : list value)
| Other (v : value).

Definition callbackSlot (w : window) (a b : string) : slot :=
  match eventCallbackList w !! a with
  | Some m =>
      match m !! b with
      | Some l => Callbacks l
      | None => if inherited b then Other (VBuiltin b) else Other VUndefined
      end
  | None => if inherited a then Other (builtinMember w a b) else Other VUndefined
  end.

(** [eventCallbackList[a][b] = l]. *)
Definition storeCallbacks (a b : string) (l : list value) (w : window)
  : window :=
  set_eventCallbackList
    (<[a := <[b := l]> (default ∅ (eventCallbackList w !! a))]>
       (eventCallbackList w)) w.

(** [if (!eventCallbackList[a]) eventCallbackList[a] = {}]. *)
Definition initNamespace (a : string) (w : window) : window :=
  match eventCallbackList w !! a with
  | Some _ => w
  | None =>
      if inherited a then w
      else set_eventCallbackList (<[a := ∅]> (eventCallbackList w)) w
  end.

(** The array of callbacks of an event, [None] as long as [on] has made
    none. *)
Definition sequenceOf (w : window) (a b : string) : option (list value) :=
  eventCallbackList w !! a ≫= (.!! b).

Definition callbacksOf (w : window) (a b : string) : list value :=
  default [] (sequenceOf w a b).

(** ** on *)

(** [on] after its [await]: the rest of the body, run with the settlement of
    the promise that [this.checkPermission(...)] returned.

    After the two [if (!...)] the slot holds an array, unless the key is
    found on [Object.prototype]: then the slot is a built-in member, which
    has no [push], and the call throws.  (Where [eventCallbackList[a]] is
    itself a built-in member and has no property [b], the new array is
    stored on that built-in object, out of the registry.)  Whatever was
    pushed, control then reaches the last line of the method. *)
Definition on_resume (w : window) (target a b : string) (callback : value)
  (awaited : settled) : window * settled :=
  match awaited with
  | Rejected e => (w, Rejected e)
  | Resolved result =>
      if negb (truthy result)
      then (w, Rejected (NeedsPermission (requiredPermission w a b)))
      else
        let w1 := initNamespace a w in
        match callbackSlot w1 a b with
        | Callbacks l =>
            (storeCallbacks a b (l ++ [ callback ]) w1,
             Rejected (UnknownEventNamed target))
        | Other v =>
            if truthy v then (w1, Rejected TypeError)
            else
              match eventCallbackList w1 !! a with
              | Some _ =>
                  (storeCallbacks a b [ callback ] w1,
                   Rejected (UnknownEventNamed target))
              | None => (w1, Rejected (UnknownEventNamed target))
              end
        end
  end.

(** What a call of [on] has come to: its promise is settled, or the method
    is suspended at its [await] on promise [p]. *)
Inductive suspended :=
| Done (r : settled)
| Awaiting (p : nat) (target a b : string) (callback : value).

(** [on], the checker being the [checkPermission] of [this]. *)
Definition on_via (check : window -> value -> window * promise)
  (w : window) (target callback : value) : window * suspended :=
  if notInitialized w then (w, Done (Rejected CallInitFirst))
  else match target with
       | VStr s =>
           if negb (String.eqb (typeof callback) "function")
           then (w, Done (Rejected (CallbackNotFunction (typeof callback))))
           else
             let splitedTarget := split "@" s in
             let a := nth 0 splitedTarget "" in
             let b := nth 1 splitedTarget "" in
             if Nat.eqb (List.length splitedTarget) 2 &&
                truthy (requiredPermission w a b)
             then
               match check w (requiredPermission w a b) with
               | (w1, Settled r) =>
                   let (w2, out) := on_resume w1 s a b callback r in
                   (w2, Done out)
               | (w1, Deferred p) => (w1, Awaiting p s a b callback)
               end
             else (w, Done (Rejected (UnknownEventNamed s)))
       | _ => (w, Done (Rejected (EventNameNotString (typeof target))))
       end.

(** [on] of the exported object. *)
Definition on (w : window) (target callback : value) : window * suspended :=
  on_via checkPermission w target callback.

(** ** off *)

(** The loop of [off]: the array without the first element that is
    [=== callback], or [None] when there is none. *)
Fixpoint spliceFirst (callback : value) (l : list value)
  : option (list value) :=
  match l with
  | [] => None
  | x :: rest =>
      if strict_eq x callback then Some rest
      else option_map (cons x) (spliceFirst callback rest)
  end.

(** [off].  Where the slot is not an array of callbacks but a truthy
    built-in value, the loop runs over its [length] (if it has one) and
    finds no element identical to a function the caller holds. *)
Definition off (w : window) (target callback : value) : window * settled :=
  if notInitialized w then (w, Rejected CallInitFirst)
  else match target with
       | VStr s =>
           if negb (String.eqb (typeof callback) "function")
           then (w, Rejected (CallbackNotFunction (typeof callback)))
           else
             let splitedTarget := split "@" s in
             let a := nth 0 splitedTarget "" in
             let b := nth 1 splitedTarget "" in
             if Nat.eqb (List.length splitedTarget) 2 &&
                truthy (requiredPermission w a b)
             then
               match callbackSlot w a b with
               | Callbacks l =>
                   match spliceFirst callback l with
                   | Some l' => (storeCallbacks a b l' w, Resolved callback)
                   | None => (w, Rejected CannotFindCallback)
                   end
               | Other v =>
                   if truthy v then (w, Rejected CannotFindCallback)
                   else (w, Rejected NoCallbackRegistered)
               end
             else (w, Rejected (UnknownEventNamed s))
       | _ => (w, Rejected (EventNameNotString (typeof target)))
       end.

(** An event name of the catalogue: [a@b] with [a] a namespace of
    [eventList] and [b] an event of that namespace. *)
Definition catalogEvent (a b : string) : bool :=
  match assoc a eventList with
  | Some events => match assoc b events with Some _ => true | None => false end
  | None => false
  end.

(** ** Histories *)

(** What can happen to the window: a call of one of the four methods, or
    the browser handing an event to the page. *)
Inductive call :=
| CallInit (pluginId : value)
| CallCheckPermission (permission : value)
| CallOn (target callback : value)
| CallOff (target callback : value)
| Browser (ev : event).

(** The window after a call.  For [on] this is the window up to its
    [await]; [on_settles_at_once] shows that [on] never stays suspended
    there. *)
Definition perform (w : window) (c : call) : window :=
  match c with
  | CallInit pluginId => fst (init w pluginId)
  | CallCheckPermission permission => fst (checkPermission w permission)
  | CallOn target callback => fst (on w target callback)
  | CallOff target callback => fst (off w target callback)
  | Browser ev => dispatch w ev
  end.

Definition performAll (w : window) (cs : list call) : window :=
  fold_left perform cs w.

(** A call of [init] that returns [true]. *)
Definition initSucceeds (w : window) (c : call) : bool :=
  match c with
  | CallInit pluginId =>
      match snd (init w pluginId) with
      | Returns true => true
      | _ => false
      end
  | _ => false
  end.

(** No call of the history, run from [w], is a successful [init]. *)
Fixpoint noInitSucceeds (w : window) (cs : list call) : bool :=
  match cs with
  | [] => true
  | c :: rest => negb (initSucceeds w c) && noInitSucceeds (perform w c) rest
  end.

(** A message event that the listener for [permission] takes as the answer:
    it comes from the parent and its action is [checkPermission:] followed
    by the permission. *)
Definition answers (permission : string) (c : call) : bool :=
  match c with
  | Browser (MessageEvent fromParent act _) =>
      fromParent && strict_eq act (VStr ("checkPermission:" ++ permission))
  | _ => false
  end.

(** The timer of promise [p] fires. *)
Definition fires (p : nat) (c : call) : bool :=
  match c with
  | Browser (TimerEvent q) => Nat.eqb q p
  | _ => false
  end.

(** The data the listener for [permission] resolves its promise with, when
    the call is an answer. *)
Definition answerOf (permission : string) (c : call) : option value :=
  match c with
  | Browser (MessageEvent fromParent act dat) =>
      if fromParent && strict_eq act (VStr ("checkPermission:" ++ permission))
      then Some dat
      else None
  | _ => None
  end.

(** The data of the first answer in a history, if there is one. *)
Fixpoint firstAnswer (permission : string) (cs : list call) : option value :=
  match cs with
  | [] => None
  | c :: rest =>
      match answerOf permission c with
      | Some dat => Some dat
      | None => firstAnswer permission rest
      end
  end.

Definition cleanup_eqb (c d : cleanup) : bool :=
  match c, d with
  | RemoveMessageListener x, RemoveMessageListener y => Nat.eqb x y
  end.

(** The numbers in use are below [nextPromise], and every timer cleans up
    the listener of its own promise: what holds of any window the module
    has worked in. *)
Definition wellFormed (w : window) : bool :=
  forallb (fun l => (listener_promise l <? nextPromise w)%nat)
    (messageListeners w) &&
  forallb (fun t => (timer_promise t <? nextPromise w)%nat &&
                    cleanup_eqb (timer_cleanUp t)
                      (RemoveMessageListener (timer_promise t)))
    (timers w) &&
  forallb (fun pr => (fst pr <? nextPromise w)%nat)
    (map_to_list (promises w)).

(** The timer [timedOutPromise] sets for promise [p]. *)
Definition timerOf (p : nat) : timer :=
  {| timer_promise := p; timer_cleanUp := RemoveMessageListener p;
     timer_delay := 1000 |}.

(** The exchange for promise [p] is under way: its listener is registered
    (and is the only kind of listener with that number), its timer is set,
    and every timer cleans up the listener of its own promise. *)
Definition waiting (p : nat) (permission : string) (w : window) : Prop :=
  listenerRegistered p w = true /\
  (forall l, In l (messageListeners w) -> listener_promise l = p ->
             listener_permission l = permission) /\
  findTimer p w = Some (timerOf p) /\
  (forall t, In t (timers w) ->
             timer_cleanUp t = RemoveMessageListener (timer_promise t)).

(** [wellFormed] as a proposition. *)
Definition numbered (w : window) : Prop :=
  (forall l, In l (messageListeners w) ->
             (listener_promise l < nextPromise w)%nat) /\
  (forall t, In t (timers w) ->
             (timer_promise t < nextPromise w)%nat /\
             timer_cleanUp t = RemoveMessageListener (timer_promise t)) /\
  (forall p r, promises w !! p = Some r -> (p < nextPromise w)%nat).

(** How many elements of an array are [=== callback]. *)
Definition occurrences (callback : value) (l : list value) : nat :=
  List.length (List.filter (fun x => strict_eq x callback) l).

(** ** Windows and checkers to run the module on *)

(** A frame under a host that says it is uoma; the built-in members have
    no properties of their own. *)
Definition hostedWindow : window :=
  freshWindow false (Some (VBool true)) (fun _ _ => VUndefined).

(** The same after [init("plugin-abcd")]. *)
Definition pluginWindow : window :=
  fst (init hostedWindow (VStr "plugin-abcd")).

(** A [checkPermission] that resolves at once with [granted], as a host
    that answers would have it resolve. *)
Definition answering (granted : bool) (w : window) (permission : value)
  : window * promise :=
  (w, Settled (Resolved (VBool granted))).

(** ** Measures and invariants for the properties below *)

(** How often a character occurs in a string. *)
Fixpoint countChar (c : ascii) (s : string) : nat :=
  match s with
  | EmptyString => 0%nat
  | String x rest =>
      ((if Ascii.eqb x c then 1 else 0) + countChar c rest)%nat
  end.

(** The registry has arrays for events of the catalogue only, under own
    namespaces that are no member of [Object.prototype], and the arrays hold
    functions only. *)
Definition registryClean (w : window) : Prop :=
  (forall a m, eventCallbackList w !! a = Some m -> inherited a = false) /\
  (forall a b l,
      sequenceOf w a b = Some l ->
      catalogEvent a b = true /\
      forall x, In x l -> typeof x = "function").

(** A plugin ID that [init] takes: a string of length 4 at least. *)
Definition validId (pluginId : value) : bool :=
  match pluginId with
  | VStr s => negb (String.length s <? 4)%nat
  | _ => false
  end.

(** * Properties *)

(** ** The guard of isValidPermissionName *)

Lemma assoc_In {A : Type} (k : string) (tbl : list (string * A)) (a : A) :
  assoc k tbl = Some a -> In (k, a) tbl.
Proof.
  induction tbl as [| [k' a'] rest IH]; simpl; [discriminate |].
  destruct (String.eqb k k') eqn:E.
  - intros [= ->]. apply String.eqb_eq in E. subst. now left.
  - intros H. right. now apply IH.
Qed.

(** No row of [permissions] turns into a number: its text has a character
    that no numeric literal has, so the part of StringToNumber that this
    development leaves out is never asked for. *)
Lemma permissions_rows_not_numeric :
  forallb (fun row => negb (allChars numericAlphabet (join (snd row))))
    permissions = true.
Proof. vm_compute. reflexivity. Qed.

Lemma permissions_rows_bitOperand :
  forallb (fun row => bitOperand (Own (snd row)) =? 0) permissions = true.
Proof. vm_compute. reflexivity. Qed.

(** Whatever the key, the right operand of [&] is 0. *)
Lemma bitOperand_permissions (k : string) :
  bitOperand (getProperty permissions k) = 0.
Proof.
  unfold getProperty.
  destruct (assoc k permissions) as [row |] eqn:E.
  - apply assoc_In in E.
    pose proof permissions_rows_bitOperand as H.
    rewrite forallb_forall in H. specialize (H _ E). simpl in H.
    now apply Z.eqb_eq in H.
  - destruct (inherited k); reflexivity.
Qed.

(** So the guard never lets a name through. *)
Lemma isValidPermissionName_false (name : value) :
  isValidPermissionName name = false.
Proof.
  destruct name; try reflexivity.
  unfold isValidPermissionName.
  rewrite bitOperand_permissions, Z.land_0_r. reflexivity.
Qed.

(** C1.  [isValidPermissionName] is meant to accept the names
    [namespace/leaf] of the catalogue.  On ["clock/timezone:read"], which
    the specification's test accepts, the source returns [false]: the guard
    joins its two conditions with the bitwise [&], and the array on the
    right is NaN as a number. *)
Theorem isValidPermissionName_rejects_catalog_name :
  isValidCapability_spec (VStr "clock/timezone:read") = true /\
  isValidPermissionName (VStr "clock/timezone:read") = false.
Proof. split; reflexivity. Qed.

(** ** checkPermission: the guards *)

Lemma typeof_string (v : value) :
  typeof v = "string" <-> exists s, v = VStr s.
Proof.
  split.
  - destruct v; simpl; try discriminate; eauto.
    destruct (String.eqb k "__proto__"); discriminate.
  - intros [s ->]. reflexivity.
Qed.

Lemma checkPermission_not_initialized (w : window) (permission : value) :
  notInitialized w = true ->
  checkPermission w permission = (w, Settled (Rejected CallInitFirst)).
Proof. intros H. unfold checkPermission. now rewrite H. Qed.

Lemma checkPermission_not_string (w : window) (permission : value) :
  notInitialized w = false ->
  typeof permission <> "string" ->
  checkPermission w permission =
    (w, Settled (Rejected (PermissionNotString (typeof permission)))).
Proof.
  intros H T. unfold checkPermission. rewrite H.
  destruct permission; try reflexivity.
  exfalso. apply T. reflexivity.
Qed.

Lemma checkPermission_string (w : window) (s : string) :
  notInitialized w = false ->
  checkPermission w (VStr s) =
    (w, Settled (Rejected (InvalidPermissionName s))).
Proof.
  intros H. unfold checkPermission.
  now rewrite H, isValidPermissionName_false.
Qed.

(** Every call of [checkPermission] is rejected at once and leaves the
    window as it was. *)
Lemma checkPermission_rejects (w : window) (permission : value) :
  exists e, checkPermission w permission = (w, Settled (Rejected e)).
Proof.
  destruct (notInitialized w) eqn:H.
  - eexists. now apply checkPermission_not_initialized.
  - destruct (String.eqb (typeof permission) "string") eqn:T.
    + apply String.eqb_eq, typeof_string in T. destruct T as [s ->].
      eexists. now apply checkPermission_string.
    + apply String.eqb_neq in T.
      eexists. now apply checkPermission_not_string.
Qed.

(** C7.  A name that is not a capability name of the catalogue (a value that
    is no string, one segment, an unknown namespace, an unknown leaf) makes
    [checkPermission] fail at once and leave the window as it was: no
    message is posted to the host, no listener registered, no timer set.
    Once [init] has succeeded the error is an InvalidArgument error. *)
Theorem checkPermission_invalid_name_sends_nothing
  (w : window) (name : value) :
  isValidCapability_spec name = false ->
  (exists e,
     checkPermission w name = (w, Settled (Rejected e)) /\
     posted (fst (checkPermission w name)) = posted w /\
     messageListeners (fst (checkPermission w name)) = messageListeners w /\
     timers (fst (checkPermission w name)) = timers w) /\
  (notInitialized w = false ->
   exists e,
     checkPermission w name = (w, Settled (Rejected e)) /\
     kindOf e = InvalidArgument).
Proof.
  intros _. split.
  - destruct (checkPermission_rejects w name) as [e E].
    exists e. rewrite E. repeat split.
  - intros Hinit.
    destruct (String.eqb (typeof name) "string") eqn:T.
    + apply String.eqb_eq, typeof_string in T. destruct T as [s ->].
      exists (InvalidPermissionName s).
      rewrite (checkPermission_string _ _ Hinit). now split.
    + apply String.eqb_neq in T.
      exists (PermissionNotString (typeof name)).
      rewrite (checkPermission_not_string _ _ Hinit T). now split.
Qed.

(** ** checkPermission on a name of the catalogue *)

Lemma isValidCapability_spec_string (name : value) :
  isValidCapability_spec name = true -> exists s, name = VStr s.
Proof. destruct name; try discriminate. eauto. Qed.

(** C4.  A call of [checkPermission] with a valid session and a capability
    name of the catalogue is meant to wait for the host and, unanswered,
    to fail with the Timeout error after 1000 ms.  The source rejects every
    such call at once with the invalid-name error, an InvalidArgument
    error and not the Timeout one, and sets no timer: the guard of
    [isValidPermissionName] holds the name back, so the exchange and its
    timer are not reached. *)
Theorem well_formed_check_never_times_out (w : window) (name : value) :
  notInitialized w = false ->
  isValidCapability_spec name = true ->
  exists s,
    name = VStr s /\
    checkPermission w name =
      (w, Settled (Rejected (InvalidPermissionName s))) /\
    kindOf (InvalidPermissionName s) = InvalidArgument /\
    kindOf (InvalidPermissionName s) <> Timeout /\
    timers (fst (checkPermission w name)) = timers w /\
    promises (fst (checkPermission w name)) = promises w.
Proof.
  intros N V. destruct (isValidCapability_spec_string name V) as [s ->].
  exists s. rewrite (checkPermission_string w s N).
  repeat split. discriminate.
Qed.

(** C5.  A call of [checkPermission] with a valid session and a capability
    name of the catalogue is meant to register a listener that stays until
    the answer or the timeout.  The source registers no listener for such
    a call and posts no request: the call is rejected before the exchange,
    by the guard of [isValidPermissionName].  The answer of the host, when
    it comes in, finds no listener of the call and changes nothing, and
    the promise of the call stays rejected. *)
Theorem well_formed_check_registers_no_listener (w : window) (name : value)
  (fromParent : bool) (dat : value) :
  notInitialized w = false ->
  isValidCapability_spec name = true ->
  exists s,
    name = VStr s /\
    snd (checkPermission w name) =
      Settled (Rejected (InvalidPermissionName s)) /\
    messageListeners (fst (checkPermission w name)) = messageListeners w /\
    posted (fst (checkPermission w name)) = posted w /\
    (messageListeners w = [] ->
     dispatch (fst (checkPermission w name))
       (MessageEvent fromParent (VStr ("checkPermission:" ++ s)) dat) =
       fst (checkPermission w name)).
Proof.
  intros N V. destruct (isValidCapability_spec_string name V) as [s ->].
  exists s. rewrite (checkPermission_string w s N).
  repeat split. intros L. simpl. now rewrite L.
Qed.

(** ** What the event loop leaves alone *)

Lemma settle_state (p : nat) (r : settled) (w : window) :
  uomaPluginId (settle p r w) = uomaPluginId w /\
  eventCallbackList (settle p r w) = eventCallbackList w /\
  messageListeners (settle p r w) = messageListeners w /\
  timers (settle p r w) = timers w.
Proof. unfold settle. destruct (promises w !! p); repeat split. Qed.

Lemma callListeners_state (fromParent : bool) (act dat : value)
  (ls : list listener) (w : window) :
  let w' := fold_left (callListener fromParent act dat) ls w in
  uomaPluginId w' = uomaPluginId w /\
  eventCallbackList w' = eventCallbackList w /\
  messageListeners w' = messageListeners w /\
  timers w' = timers w.
Proof.
  revert w. induction ls as [| l ls IH]; intros w; simpl; [repeat split |].
  destruct (IH (callListener fromParent act dat w l)) as (A & B & C & D).
  rewrite A, B, C, D. unfold callListener.
  destruct (_ && _); [apply settle_state | repeat split].
Qed.

(** An event changes neither the session nor the registry. *)
Lemma dispatch_state (w : window) (ev : event) :
  uomaPluginId (dispatch w ev) = uomaPluginId w /\
  eventCallbackList (dispatch w ev) = eventCallbackList w.
Proof.
  destruct ev as [fromParent act dat | p]; simpl.
  - destruct (callListeners_state fromParent act dat (messageListeners w) w)
      as (A & B & _). now split.
  - destruct (findTimer p w) as [t |]; [| now split].
    unfold runTimer.
    destruct (settle_state (timer_promise t) (Rejected TimedOut)
                (runCleanUp (timer_cleanUp t) (dropTimer p w))) as (A & B & _).
    rewrite A, B. destruct (timer_cleanUp t); now split.
Qed.

(** ** on with the module's own checkPermission *)

(** As [checkPermission] rejects every call at once, so does [on]: it is
    never left suspended, and the window is as it was. *)
Lemma on_settles_at_once (w : window) (target callback : value) :
  exists e, on w target callback = (w, Done (Rejected e)).
Proof.
  unfold on, on_via.
  destruct (notInitialized w); [eauto |].
  destruct target; eauto.
  destruct (negb _); [eauto |].
  destruct (_ && _); [| eauto].
  destruct (checkPermission_rejects w
              (requiredPermission w (nth 0 (split "@" s) "")
                 (nth 1 (split "@" s) ""))) as [e ->].
  simpl. eauto.
Qed.

(** ** The session *)

Lemma init_without_success (w : window) (pluginId : value) :
  snd (init w pluginId) <> Returns true -> fst (init w pluginId) = w.
Proof.
  unfold init. destruct pluginId; try reflexivity.
  destruct (_ <? _)%nat; [reflexivity |].
  destruct (_ || _); [reflexivity |]. simpl. congruence.
Qed.

Lemma storeCallbacks_session (a b : string) (l : list value) (w : window) :
  uomaPluginId (storeCallbacks a b l w) = uomaPluginId w.
Proof. reflexivity. Qed.

Lemma off_session (w : window) (target callback : value) :
  uomaPluginId (fst (off w target callback)) = uomaPluginId w.
Proof.
  unfold off.
  destruct (notInitialized w); [reflexivity |].
  destruct target; try reflexivity.
  destruct (negb _); [reflexivity |].
  destruct (_ && _); [| reflexivity].
  destruct (callbackSlot _ _ _) as [l | v].
  - destruct (spliceFirst callback l); reflexivity.
  - destruct (truthy v); reflexivity.
Qed.

(** Only a successful [init] writes [window.uomaPluginId]. *)
Lemma perform_session (w : window) (c : call) :
  initSucceeds w c = false ->
  uomaPluginId (perform w c) = uomaPluginId w.
Proof.
  destruct c as [pluginId | permission | target callback | target callback | ev];
    simpl; intros H.
  - rewrite init_without_success; [reflexivity |].
    destruct (snd (init w pluginId)) as [[|] |]; congruence.
  - destruct (checkPermission_rejects w permission) as [e ->]. reflexivity.
  - destruct (on_settles_at_once w target callback) as [e ->]. reflexivity.
  - apply off_session.
  - apply dispatch_state.
Qed.

Lemma notInitialized_session (w w' : window) :
  uomaPluginId w' = uomaPluginId w -> notInitialized w' = notInitialized w.
Proof. unfold notInitialized. now intros ->. Qed.

Lemma performAll_not_initialized (w : window) (history : list call) :
  noInitSucceeds w history = true ->
  notInitialized w = true ->
  notInitialized (performAll w history) = true.
Proof.
  revert w. induction history as [| c rest IH]; intros w; simpl; [auto |].
  intros H N. apply andb_true_iff in H. destruct H as [H1 H2].
  apply negb_true_iff in H1.
  apply IH; [assumption |].
  rewrite (notInitialized_session w); [assumption |].
  now apply perform_session.
Qed.

(** C6.  Before [init] has succeeded (in the window as loaded and after any
    history of calls and events in which no [init] returned [true])
    [checkPermission] fails with NotInitialized whatever its argument; and
    the three guards come in the order session, string, catalogue: a window
    that is not initialised gives NotInitialized also for an argument that
    is no string or no capability name, and an argument that is no string
    gives the error of the string test, not that of the catalogue test. *)
Theorem checkPermission_preconditions_in_order
  (w : window) (permission : value) :
  (forall top flag members history,
      noInitSucceeds (freshWindow top flag members) history = true ->
      w = performAll (freshWindow top flag members) history ->
      checkPermission w permission = (w, Settled (Rejected CallInitFirst))) /\
  (notInitialized w = true ->
   checkPermission w permission = (w, Settled (Rejected CallInitFirst)) /\
   kindOf CallInitFirst = NotInitialized) /\
  (notInitialized w = false -> typeof permission <> "string" ->
   checkPermission w permission =
     (w, Settled (Rejected (PermissionNotString (typeof permission)))) /\
   kindOf (PermissionNotString (typeof permission)) = InvalidArgument) /\
  (notInitialized w = false -> isValidPermissionName permission = false ->
   forall s, permission = VStr s ->
   checkPermission w permission =
     (w, Settled (Rejected (InvalidPermissionName s))) /\
   kindOf (InvalidPermissionName s) = InvalidArgument).
Proof.
  split; [| split; [| split]].
  - intros top flag members history H ->.
    apply checkPermission_not_initialized.
    now apply performAll_not_initialized.
  - intros N. split; [now apply checkPermission_not_initialized | reflexivity].
  - intros N T. split; [now apply checkPermission_not_string | reflexivity].
  - intros N _ s ->. split; [now apply checkPermission_string | reflexivity].
Qed.

(** ** init *)

(** C9.  [init] throws an InvalidArgument error when the plugin ID is no
    string or is shorter than 4; otherwise it returns [false], and writes
    nothing, when the window is its own parent or the parent's flag is not
    truthy, a flag that cannot be read counting as not truthy; otherwise it
    stores the plugin ID in [window.uomaPluginId] and returns [true]. *)
Theorem init_contract (w : window) (pluginId : value) :
  (typeof pluginId <> "string" ->
   init w pluginId = (w, Throws (PluginIdNotString (typeof pluginId))) /\
   kindOf (PluginIdNotString (typeof pluginId)) = InvalidArgument) /\
  (forall s, pluginId = VStr s -> (String.length s < 4)%nat ->
   init w pluginId = (w, Throws InvalidPluginId) /\
   kindOf InvalidPluginId = InvalidArgument) /\
  (forall s, pluginId = VStr s -> (4 <= String.length s)%nat ->
   parentIsWindow w = true \/ parentIsUoma w = None \/
   (exists flag, parentIsUoma w = Some flag /\ truthy flag = false) ->
   init w pluginId = (w, Returns false)) /\
  (forall s flag, pluginId = VStr s -> (4 <= String.length s)%nat ->
   parentIsWindow w = false -> parentIsUoma w = Some flag ->
   truthy flag = true ->
   snd (init w pluginId) = Returns true /\
   uomaPluginId (fst (init w pluginId)) = VStr s /\
   notInitialized (fst (init w pluginId)) = false /\
   eventCallbackList (fst (init w pluginId)) = eventCallbackList w).
Proof.
  assert (E : forall s, (4 <= String.length s)%nat ->
                        (String.length s <? 4)%nat = false)
    by (intros s L; apply Nat.ltb_ge; lia).
  split; [| split; [| split]].
  - intros T. destruct pluginId; try (split; reflexivity).
    exfalso. apply T. reflexivity.
  - intros s -> L. unfold init. apply Nat.ltb_lt in L. now rewrite L.
  - intros s -> L H. unfold init, isUoma. rewrite (E s L).
    destruct H as [-> | [-> | (flag & -> & ->)]]; simpl;
      try reflexivity; now rewrite orb_true_r.
  - intros s flag -> L P F T. unfold init, isUoma, notInitialized.
    rewrite (E s L), P, F, T. simpl. rewrite (E s L). repeat split.
Qed.

(** ** The catalogue of events *)

Lemma eventList_permissions_truthy :
  forallb (fun ns => forallb (fun ev => truthy (VStr (snd ev))) (snd ns))
    eventList = true.
Proof. vm_compute. reflexivity. Qed.

Lemma eventList_names_own :
  forallb (fun ns => negb (inherited (fst ns)) &&
                     forallb (fun ev => negb (inherited (fst ev))) (snd ns))
    eventList = true.
Proof. vm_compute. reflexivity. Qed.

Lemma catalogEvent_inv (a b : string) :
  catalogEvent a b = true ->
  exists events permission,
    assoc a eventList = Some events /\ assoc b events = Some permission /\
    truthy (VStr permission) = true /\
    inherited a = false /\ inherited b = false.
Proof.
  unfold catalogEvent.
  destruct (assoc a eventList) as [events |] eqn:A; [| discriminate].
  destruct (assoc b events) as [permission |] eqn:B; [| discriminate].
  intros _. exists events, permission.
  pose proof (assoc_In _ _ _ A) as IA. pose proof (assoc_In _ _ _ B) as IB.
  pose proof eventList_permissions_truthy as T.
  pose proof eventList_names_own as O.
  rewrite forallb_forall in T, O.
  specialize (T _ IA). specialize (O _ IA). simpl in T, O.
  apply andb_true_iff in O. destruct O as [Oa Ob].
  rewrite forallb_forall in T, Ob.
  specialize (T _ IB). specialize (Ob _ IB). simpl in T, Ob.
  repeat split; try assumption; now apply negb_true_iff.
Qed.

(** A catalogue event needs the permission the table gives, a non-empty
    string. *)
Lemma catalogEvent_required (w : window) (a b : string) :
  catalogEvent a b = true ->
  exists permission,
    requiredPermission w a b = VStr permission /\
    truthy (requiredPermission w a b) = true.
Proof.
  intros H. destruct (catalogEvent_inv _ _ H) as (events & p & A & B & T & _).
  exists p. unfold requiredPermission, getProperty. rewrite A, B. now split.
Qed.

Lemma catalogEvent_slot (w : window) (a b : string) :
  catalogEvent a b = true ->
  callbackSlot w a b =
    match sequenceOf w a b with
    | Some l => Callbacks l
    | None => Other VUndefined
    end.
Proof.
  intros H. destruct (catalogEvent_inv _ _ H) as (_ & _ & _ & _ & _ & Ia & Ib).
  unfold callbackSlot, sequenceOf.
  destruct (eventCallbackList w !! a) as [m |]; simpl.
  - destruct (m !! b); [reflexivity | now rewrite Ib].
  - now rewrite Ia.
Qed.

(** ** Event names *)

Lemma eventList_names_split :
  forallb
    (fun ns =>
       forallb
         (fun ev =>
            bool_decide (split "@" (fst ns ++ "@" ++ fst ev) =
                           [ fst ns; fst ev ]))
         (snd ns))
    eventList = true.
Proof. vm_compute. reflexivity. Qed.

(** The name [a@b] of a catalogue event is taken apart into [a] and [b]. *)
Lemma catalogEvent_name (a b : string) :
  catalogEvent a b = true -> split "@" (a ++ "@" ++ b) = [ a; b ].
Proof.
  intros H. destruct (catalogEvent_inv _ _ H) as (events & p & A & B & _).
  apply assoc_In in A. apply assoc_In in B.
  pose proof eventList_names_split as S.
  rewrite forallb_forall in S. specialize (S _ A). simpl in S.
  rewrite forallb_forall in S. specialize (S _ B). simpl in S.
  now apply bool_decide_eq_true in S.
Qed.

(** ** The registry *)

Lemma sequenceOf_storeCallbacks (a b a' b' : string) (l : list value)
  (w : window) :
  sequenceOf (storeCallbacks a b l w) a' b' =
    if decide (a = a' /\ b = b') then Some l else sequenceOf w a' b'.
Proof.
  unfold sequenceOf, storeCallbacks. simpl.
  destruct (decide (a = a')) as [<- | Na].
  - rewrite lookup_insert_eq. simpl.
    destruct (decide (b = b')) as [<- | Nb].
    + rewrite lookup_insert_eq. now rewrite decide_True.
    + rewrite lookup_insert_ne by assumption.
      rewrite decide_False by (intros [_ ?]; contradiction).
      destruct (eventCallbackList w !! a); reflexivity.
  - rewrite lookup_insert_ne by assumption.
    now rewrite decide_False by (intros [? _]; contradiction).
Qed.

Lemma sequenceOf_initNamespace (a a' b' : string) (w : window) :
  sequenceOf (initNamespace a w) a' b' = sequenceOf w a' b'.
Proof.
  unfold initNamespace, sequenceOf.
  destruct (eventCallbackList w !! a) eqn:E; [reflexivity |].
  destruct (inherited a); [reflexivity |]. simpl.
  destruct (decide (a = a')) as [<- | Na].
  - rewrite lookup_insert_eq, E. reflexivity.
  - now rewrite lookup_insert_ne.
Qed.

Lemma initNamespace_own (a : string) (w : window) :
  inherited a = false -> is_Some (eventCallbackList (initNamespace a w) !! a).
Proof.
  intros I. unfold initNamespace.
  destruct (eventCallbackList w !! a) eqn:E; [rewrite E; eauto |].
  rewrite I. simpl. rewrite lookup_insert_eq. eauto.
Qed.

(** ** Identity of callbacks *)

Lemma strict_eq_refl (v : value) : strict_eq v v = true.
Proof.
  destruct v; simpl; try reflexivity.
  - now destruct b.
  - apply Z.eqb_refl.
  - apply String.eqb_refl.
  - apply Nat.eqb_refl.
  - apply String.eqb_refl.
Qed.

Lemma strict_eq_eq (x y : value) : strict_eq x y = true -> x = y.
Proof.
  destruct x, y; simpl; try discriminate; intros H; try reflexivity.
  - apply Bool.eqb_prop in H. now subst.
  - apply Z.eqb_eq in H. now subst.
  - apply String.eqb_eq in H. now subst.
  - apply Nat.eqb_eq in H. now subst.
  - apply String.eqb_eq in H. now subst.
Qed.

(** ** The loop of off *)

Lemma spliceFirst_first (callback : value) (l1 l2 : list value) :
  occurrences callback l1 = 0%nat ->
  spliceFirst callback (l1 ++ callback :: l2) = Some (l1 ++ l2)%list.
Proof.
  unfold occurrences.
  induction l1 as [| x l1 IH]; simpl.
  - intros _. now rewrite strict_eq_refl.
  - destruct (strict_eq x callback); simpl; [discriminate |].
    intros H. now rewrite IH.
Qed.

Lemma spliceFirst_absent (callback : value) (l : list value) :
  occurrences callback l = 0%nat -> spliceFirst callback l = None.
Proof.
  unfold occurrences.
  induction l as [| x l IH]; simpl; [reflexivity |].
  destruct (strict_eq x callback); simpl; [discriminate |].
  intros H. now rewrite IH.
Qed.

Lemma spliceFirst_present (callback : value) (l : list value) :
  (0 < occurrences callback l)%nat ->
  exists l', spliceFirst callback l = Some l' /\
             S (occurrences callback l') = occurrences callback l /\
             S (List.length l') = List.length l.
Proof.
  unfold occurrences.
  induction l as [| x l IH]; simpl; [lia |].
  destruct (strict_eq x callback) eqn:E; simpl.
  - intros _. exists l. repeat split.
  - intros H. destruct (IH H) as (l' & -> & O & L).
    exists (x :: l'). simpl. rewrite E. simpl. repeat split; lia.
Qed.

Lemma occurrences_app (callback : value) (l1 l2 : list value) :
  occurrences callback (l1 ++ l2) =
    (occurrences callback l1 + occurrences callback l2)%nat.
Proof. unfold occurrences. now rewrite List.filter_app, List.length_app. Qed.

(** [off] on an event of the catalogue, the session being valid and the
    callback a function. *)
Lemma off_catalog (w : window) (target a b : string) (callback : value) :
  notInitialized w = false ->
  split "@" target = [ a; b ] ->
  catalogEvent a b = true ->
  typeof callback = "function" ->
  off w (VStr target) callback =
    match sequenceOf w a b with
    | None => (w, Rejected NoCallbackRegistered)
    | Some l =>
        match spliceFirst callback l with
        | Some l' => (storeCallbacks a b l' w, Resolved callback)
        | None => (w, Rejected CannotFindCallback)
        end
    end.
Proof.
  intros N S C T. unfold off. rewrite N, T, S. simpl.
  destruct (catalogEvent_required w a b C) as (p & _ & ->).
  rewrite (catalogEvent_slot w a b C).
  destruct (sequenceOf w a b); reflexivity.
Qed.

(** ** on after a granted check *)

Lemma on_resume_session (w : window) (target a b : string)
  (callback : value) (awaited : settled) :
  uomaPluginId (fst (on_resume w target a b callback awaited)) =
    uomaPluginId w.
Proof.
  unfold on_resume. destruct awaited as [result | e]; [| reflexivity].
  destruct (negb (truthy result)); [reflexivity |].
  assert (I : uomaPluginId (initNamespace a w) = uomaPluginId w).
  { unfold initNamespace. destruct (eventCallbackList w !! a); [reflexivity |].
    destruct (inherited a); reflexivity. }
  destruct (callbackSlot _ _ _) as [l | v]; [exact I |].
  destruct (truthy v); [exact I |].
  destruct (eventCallbackList _ !! a); exact I.
Qed.

(** On an event of the catalogue a truthy result makes [on] append the
    callback to the event's array, made on first use, and then reject. *)
Lemma on_resume_granted (w : window) (target a b : string)
  (callback result : value) :
  catalogEvent a b = true ->
  truthy result = true ->
  exists w',
    on_resume w target a b callback (Resolved result) =
      (w', Rejected (UnknownEventNamed target)) /\
    sequenceOf w' a b = Some (callbacksOf w a b ++ [ callback ])%list /\
    (forall a' b', ~ (a = a' /\ b = b') ->
                   sequenceOf w' a' b' = sequenceOf w a' b').
Proof.
  intros C T. unfold on_resume, callbacksOf. rewrite T. simpl.
  rewrite (catalogEvent_slot _ a b C), sequenceOf_initNamespace.
  destruct (sequenceOf w a b) as [l |] eqn:E; simpl.
  - eexists. split; [reflexivity |]. split.
    + rewrite sequenceOf_storeCallbacks. now rewrite decide_True.
    + intros a' b' N. rewrite sequenceOf_storeCallbacks.
      rewrite decide_False by assumption. apply sequenceOf_initNamespace.
  - destruct (catalogEvent_inv _ _ C) as (_ & _ & _ & _ & _ & Ia & _).
    destruct (initNamespace_own a w Ia) as [m ->].
    eexists. split; [reflexivity |]. split.
    + rewrite sequenceOf_storeCallbacks. now rewrite decide_True.
    + intros a' b' N. rewrite sequenceOf_storeCallbacks.
      rewrite decide_False by assumption. apply sequenceOf_initNamespace.
Qed.

(** ** off *)

(** C8.  With a valid session, an event name of the catalogue and a function
    as callback: [off] fails with a NotFound error, and changes nothing,
    when the event has no array of callbacks or the array does not hold the
    callback; otherwise it takes the first element identical to the
    callback out of the array, leaves every other array alone and resolves
    with the callback.  After [on] has twice appended the same callback
    (its check granted twice), two calls of [off] in a row both resolve,
    each taking one occurrence away. *)
Theorem off_contract (w : window) (target a b : string) (callback : value) :
  notInitialized w = false ->
  split "@" target = [ a; b ] ->
  catalogEvent a b = true ->
  typeof callback = "function" ->
  (sequenceOf w a b = None ->
   off w (VStr target) callback = (w, Rejected NoCallbackRegistered) /\
   kindOf NoCallbackRegistered = NotFound) /\
  (forall l, sequenceOf w a b = Some l -> occurrences callback l = 0%nat ->
   off w (VStr target) callback = (w, Rejected CannotFindCallback) /\
   kindOf CannotFindCallback = NotFound) /\
  (forall l1 l2,
   sequenceOf w a b = Some (l1 ++ callback :: l2)%list ->
   occurrences callback l1 = 0%nat ->
   snd (off w (VStr target) callback) = Resolved callback /\
   sequenceOf (fst (off w (VStr target) callback)) a b =
     Some (l1 ++ l2)%list /\
   (forall a' b', ~ (a = a' /\ b = b') ->
      sequenceOf (fst (off w (VStr target) callback)) a' b' =
        sequenceOf w a' b') /\
   uomaPluginId (fst (off w (VStr target) callback)) = uomaPluginId w) /\
  (forall granted1 granted2,
   truthy granted1 = true -> truthy granted2 = true ->
   let w1 := fst (on_resume w target a b callback (Resolved granted1)) in
   let w2 := fst (on_resume w1 target a b callback (Resolved granted2)) in
   let first := off w2 (VStr target) callback in
   let second := off (fst first) (VStr target) callback in
   snd first = Resolved callback /\
   snd second = Resolved callback /\
   occurrences callback (callbacksOf w2 a b) =
     S (S (occurrences callback (callbacksOf w a b))) /\
   occurrences callback (callbacksOf (fst first) a b) =
     S (occurrences callback (callbacksOf w a b)) /\
   occurrences callback (callbacksOf (fst second) a b) =
     occurrences callback (callbacksOf w a b) /\
   List.length (callbacksOf (fst second) a b) =
     List.length (callbacksOf w a b)).
Proof.
  intros N Sp C T.
  split; [| split; [| split]].
  - intros E. rewrite (off_catalog w target a b callback N Sp C T), E.
    now split.
  - intros l E O. rewrite (off_catalog w target a b callback N Sp C T), E.
    rewrite (spliceFirst_absent _ _ O). now split.
  - intros l1 l2 E O. rewrite (off_catalog w target a b callback N Sp C T), E.
    rewrite (spliceFirst_first _ _ _ O). simpl.
    split; [reflexivity |]. split; [| split; [| reflexivity]].
    + rewrite sequenceOf_storeCallbacks. now rewrite decide_True.
    + intros a' b' Ne. rewrite sequenceOf_storeCallbacks.
      now rewrite decide_False.
  - intros g1 g2 T1 T2. cbv zeta.
    pose proof (on_resume_session w target a b callback (Resolved g1)) as U1.
    destruct (on_resume_granted w target a b callback g1 C T1)
      as (w1 & R1 & Q1 & _).
    rewrite R1 in U1 |- *. cbn [fst snd] in U1 |- *.
    pose proof (on_resume_session w1 target a b callback (Resolved g2)) as U2.
    destruct (on_resume_granted w1 target a b callback g2 C T2)
      as (w2 & R2 & Q2 & _).
    rewrite R2 in U2 |- *. cbn [fst snd] in U2 |- *.
    assert (N2 : notInitialized w2 = false).
    { rewrite (notInitialized_session w w2); [assumption | congruence]. }
    set (l := callbacksOf w a b) in *.
    assert (L1 : callbacksOf w1 a b = (l ++ [ callback ])%list)
      by (unfold callbacksOf at 1; now rewrite Q1).
    rewrite L1 in Q2.
    assert (L2 : callbacksOf w2 a b = ((l ++ [ callback ]) ++ [ callback ])%list)
      by (unfold callbacksOf at 1; now rewrite Q2).
    assert (O1 : occurrences callback [ callback ] = 1%nat)
      by (unfold occurrences; simpl; now rewrite strict_eq_refl).
    assert (O2 : occurrences callback ((l ++ [ callback ]) ++ [ callback ]) =
                 S (S (occurrences callback l)))
      by (rewrite !occurrences_app, O1; lia).
    rewrite (off_catalog w2 target a b callback N2 Sp C T), Q2.
    destruct (spliceFirst_present callback ((l ++ [ callback ]) ++ [ callback ]))
      as (l' & -> & O' & Len'); [lia |]. cbn [fst snd].
    assert (N3 : notInitialized (storeCallbacks a b l' w2) = false)
      by exact N2.
    assert (Q3 : sequenceOf (storeCallbacks a b l' w2) a b = Some l')
      by (rewrite sequenceOf_storeCallbacks; now rewrite decide_True).
    rewrite (off_catalog _ target a b callback N3 Sp C T), Q3.
    destruct (spliceFirst_present callback l') as (l'' & -> & O'' & Len'');
      [lia |]. cbn [fst snd].
    assert (Q4 : sequenceOf (storeCallbacks a b l'' (storeCallbacks a b l' w2))
                   a b = Some l'')
      by (rewrite sequenceOf_storeCallbacks; now rewrite decide_True).
    assert (L3 : callbacksOf (storeCallbacks a b l' w2) a b = l')
      by (unfold callbacksOf; now rewrite Q3).
    assert (L4 : callbacksOf (storeCallbacks a b l'' (storeCallbacks a b l' w2))
                   a b = l'')
      by (unfold callbacksOf; now rewrite Q4).
    rewrite L2, L3, L4.
    rewrite !List.length_app in Len'. simpl in Len'.
    repeat split; lia.
Qed.

(** ** on *)

Lemma on_resume_rejects (w : window) (target a b : string)
  (callback : value) (awaited : settled) :
  exists e, snd (on_resume w target a b callback awaited) = Rejected e.
Proof.
  unfold on_resume. destruct awaited as [result | e]; [| eauto].
  destruct (negb (truthy result)); [eauto |].
  destruct (callbackSlot _ _ _) as [l | v]; [eauto |].
  destruct (truthy v); [eauto |].
  destruct (eventCallbackList _ !! a); eauto.
Qed.

(** A check that resolves with a falsy value makes [on] reject with a
    PermissionDenied error and leave the window as it was. *)
Lemma on_resume_denied (w : window) (target a b : string)
  (callback result : value) :
  truthy result = false ->
  on_resume w target a b callback (Resolved result) =
    (w, Rejected (NeedsPermission (requiredPermission w a b))) /\
  kindOf (NeedsPermission (requiredPermission w a b)) = PermissionDenied.
Proof. intros T. unfold on_resume. now rewrite T. Qed.

(** C10.  The promise of [on] is never resolved: whatever checker [this]
    has and whatever that checker's promise settles with, every path through
    [on] ends in a rejection; with the module's own [checkPermission] the
    rejection comes at once.  In particular, with a valid session, an event
    name of the catalogue, a function as callback and a check resolved with
    a truthy value, [on] appends the callback to the event's array and then
    rejects with the Unknown-event error. *)
Theorem on_never_resolves :
  (forall check w target callback v,
      snd (on_via check w target callback) <> Done (Resolved v)) /\
  (forall w target a b callback awaited,
      exists e, snd (on_resume w target a b callback awaited) = Rejected e) /\
  (forall w target callback,
      exists e, on w target callback = (w, Done (Rejected e))) /\
  (forall check w w1 target a b callback result,
      notInitialized w = false ->
      split "@" target = [ a; b ] ->
      catalogEvent a b = true ->
      typeof callback = "function" ->
      check w (requiredPermission w a b) = (w1, Settled (Resolved result)) ->
      truthy result = true ->
      snd (on_via check w (VStr target) callback) =
        Done (Rejected (UnknownEventNamed target)) /\
      kindOf (UnknownEventNamed target) = UnknownEvent /\
      sequenceOf (fst (on_via check w (VStr target) callback)) a b =
        Some (callbacksOf w1 a b ++ [ callback ])%list).
Proof.
  split; [| split; [| split]].
  - intros check w target callback v. unfold on_via.
    destruct (notInitialized w); [discriminate |].
    destruct target; try discriminate.
    destruct (negb _); [discriminate |].
    destruct (_ && _); [| discriminate].
    destruct (check w _) as [w1 [r | p]]; [| discriminate].
    destruct (on_resume_rejects w1 s (nth 0 (split "@" s) "")
                (nth 1 (split "@" s) "") callback r) as [e E].
    destruct (on_resume _ _ _ _ _ _) as [w2 out]. simpl in E |- *.
    rewrite E. discriminate.
  - intros. apply on_resume_rejects.
  - intros. apply on_settles_at_once.
  - intros check w w1 target a b callback result N Sp C T K G.
    unfold on_via. rewrite N, T, Sp. cbn [nth List.length Nat.eqb negb String.eqb].
    destruct (catalogEvent_required w a b C) as (p & _ & Tr).
    rewrite Tr, K. simpl andb. cbv iota beta.
    destruct (on_resume_granted w1 target a b callback result C G)
      as (w2 & -> & Q & _).
    cbn [fst snd]. repeat split. exact Q.
Qed.

(** C2.  [on] is meant to resolve when its check is granted.  With a valid
    session, for ["todo@done"] and a checker that resolves with [true], the
    source appends the callback and then rejects with the Unknown-event
    error; and with the module's own [checkPermission], which is handed the
    leaf ["list:read"] and accepts no name, it rejects before any message
    goes to the host. *)
Theorem on_granted_is_rejected :
  let granted :=
    on_via (answering true) pluginWindow (VStr "todo@done") (VFun 0) in
  snd granted = Done (Rejected (UnknownEventNamed "todo@done")) /\
  sequenceOf (fst granted) "todo" "done" = Some [ VFun 0 ] /\
  on pluginWindow (VStr "todo@done") (VFun 0) =
    (pluginWindow, Done (Rejected (InvalidPermissionName "list:read"))).
Proof. vm_compute. repeat split. Qed.

(** C3.  A failing call is meant to leave the registry as it was.  With a
    valid session, for ["todo@done"] and a checker that resolves with
    [true], [on] rejects and yet the registry, which had no array for the
    event, now holds one with the callback in it. *)
Theorem on_rejects_after_it_has_appended :
  let granted :=
    on_via (answering true) pluginWindow (VStr "todo@done") (VFun 0) in
  (exists e, snd granted = Done (Rejected e)) /\
  sequenceOf pluginWindow "todo" "done" = None /\
  sequenceOf (fst granted) "todo" "done" = Some [ VFun 0 ] /\
  eventCallbackList (fst granted) <> eventCallbackList pluginWindow.
Proof.
  cbv zeta. split; [eexists; vm_compute; reflexivity |].
  split; [vm_compute; reflexivity |].
  split; [vm_compute; reflexivity |].
  intros E.
  assert (H : sequenceOf
                (fst (on_via (answering true) pluginWindow (VStr "todo@done")
                        (VFun 0))) "todo" "done" =
              sequenceOf pluginWindow "todo" "done")
    by (unfold sequenceOf; now rewrite E).
  vm_compute in H. discriminate.
Qed.

(** ** The exchange with the host *)

Lemma settle_lookup (q p : nat) (r : settled) (w : window) :
  promises (settle q r w) !! p =
    match promises w !! p with
    | Some x => Some x
    | None => if decide (q = p) then Some r else None
    end.
Proof.
  unfold settle.
  destruct (promises w !! q) eqn:Q.
  - destruct (promises w !! p) eqn:P; [reflexivity |].
    destruct (decide (q = p)) as [<- | _]; [congruence | reflexivity].
  - simpl. destruct (decide (q = p)) as [<- | N].
    + now rewrite lookup_insert_eq, Q.
    + rewrite lookup_insert_ne by assumption.
      now destruct (promises w !! p).
Qed.

Lemma answers_answerOf (permission : string) (c : call) :
  answers permission c = false -> answerOf permission c = None.
Proof.
  destruct c as [| | | | [fromParent act dat | q]]; try reflexivity.
  simpl. now intros ->.
Qed.

(** What the listeners do to promise [p] when a message comes in: if it is
    pending and one of them serves it, it is resolved when the message is
    an answer. *)
Lemma callListeners_promise (p : nat) (permission : string)
  (fromParent : bool) (act dat : value) (ls : list listener) (w : window) :
  (forall l, In l ls -> listener_promise l = p ->
             listener_permission l = permission) ->
  promises (fold_left (callListener fromParent act dat) ls w) !! p =
    match promises w !! p with
    | Some x => Some x
    | None =>
        if existsb (fun l => Nat.eqb (listener_promise l) p) ls
        then option_map Resolved
               (answerOf permission (Browser (MessageEvent fromParent act dat)))
        else None
    end.
Proof.
  revert w. induction ls as [| l ls IH]; intros w H; simpl.
  - now destruct (promises w !! p).
  - rewrite IH by (intros; apply H; [now right | assumption]).
    unfold callListener.
    destruct (Nat.eqb (listener_promise l) p) eqn:E; simpl.
    + apply Nat.eqb_eq in E.
      rewrite (H l (or_introl eq_refl) E).
      destruct (fromParent && _) eqn:A.
      * rewrite settle_lookup, E.
        destruct (promises w !! p); [reflexivity |].
        now rewrite decide_True.
      * destruct (promises w !! p); [reflexivity |].
        now destruct (existsb _ ls).
    + apply Nat.eqb_neq in E.
      destruct (fromParent && strict_eq act _); [| reflexivity].
      rewrite settle_lookup.
      destruct (promises w !! p); [reflexivity |].
      now rewrite decide_False.
Qed.

Lemma find_filter_other (p q : nat) (ts : list timer) :
  p <> q ->
  List.find (fun t => Nat.eqb (timer_promise t) p)
    (List.filter (fun t => negb (Nat.eqb (timer_promise t) q)) ts) =
  List.find (fun t => Nat.eqb (timer_promise t) p) ts.
Proof.
  intros N. induction ts as [| t ts IH]; simpl; [reflexivity |].
  destruct (Nat.eqb (timer_promise t) q) eqn:Q; simpl.
  - destruct (Nat.eqb (timer_promise t) p) eqn:P; [| exact IH].
    apply Nat.eqb_eq in Q, P. congruence.
  - now rewrite IH.
Qed.

Lemma registered_filter_other (p q : nat) (ls : list listener) :
  p <> q ->
  existsb (fun l => Nat.eqb (listener_promise l) p)
    (List.filter (fun l => negb (Nat.eqb (listener_promise l) q)) ls) =
  existsb (fun l => Nat.eqb (listener_promise l) p) ls.
Proof.
  intros N. induction ls as [| l ls IH]; simpl; [reflexivity |].
  destruct (Nat.eqb (listener_promise l) q) eqn:Q; simpl.
  - destruct (Nat.eqb (listener_promise l) p) eqn:P; [| exact IH].
    apply Nat.eqb_eq in Q, P. congruence.
  - now rewrite IH.
Qed.

Lemma registered_filter_same (p : nat) (ls : list listener) :
  existsb (fun l => Nat.eqb (listener_promise l) p)
    (List.filter (fun l => negb (Nat.eqb (listener_promise l) p)) ls) = false.
Proof.
  induction ls as [| l ls IH]; simpl; [reflexivity |].
  destruct (Nat.eqb (listener_promise l) p) eqn:P; simpl; [exact IH |].
  now rewrite P.
Qed.

(** The timer callback, for a timer that cleans up its own listener. *)
Lemma dispatch_timer (w : window) (q : nat) (t : timer) :
  findTimer q w = Some t ->
  (forall t, In t (timers w) ->
             timer_cleanUp t = RemoveMessageListener (timer_promise t)) ->
  dispatch w (TimerEvent q) =
    settle q (Rejected TimedOut) (removeMessageListener q (dropTimer q w)).
Proof.
  intros F Cl. simpl. rewrite F.
  apply List.find_some in F. destruct F as [I E].
  apply Nat.eqb_eq in E. unfold runTimer. now rewrite (Cl t I), E.
Qed.

(** The methods touch neither listeners nor timers nor promises. *)
Lemma perform_channel (w : window) (c : call) :
  (forall ev, c <> Browser ev) ->
  messageListeners (perform w c) = messageListeners w /\
  timers (perform w c) = timers w /\
  promises (perform w c) = promises w.
Proof.
  destruct c as [pluginId | permission | target callback | target callback | ev];
    simpl; intros H.
  - unfold init. destruct pluginId; try solve [repeat split].
    destruct (_ <? _)%nat; [repeat split |].
    destruct (_ || _); repeat split.
  - destruct (checkPermission_rejects w permission) as [e ->]. repeat split.
  - destruct (on_settles_at_once w target callback) as [e ->]. repeat split.
  - unfold off.
    destruct (notInitialized w); [repeat split |].
    destruct target; try solve [repeat split].
    destruct (negb _); [repeat split |].
    destruct (_ && _); [| repeat split].
    destruct (callbackSlot _ _ _) as [l | v].
    + destruct (spliceFirst callback l); repeat split.
    + destruct (truthy v); repeat split.
  - exfalso. now apply (H ev).
Qed.

(** One more call or event, other than the timer of [p]: the exchange is
    still under way, and promise [p] is resolved if it was pending and the
    event is an answer. *)
Lemma perform_waiting (p : nat) (permission : string) (w : window) (c : call) :
  waiting p permission w ->
  fires p c = false ->
  waiting p permission (perform w c) /\
  promises (perform w c) !! p =
    match promises w !! p with
    | Some x => Some x
    | None => option_map Resolved (answerOf permission c)
    end.
Proof.
  intros (R & P & F & Cl) NF.
  assert (Methods : (forall ev, c <> Browser ev) ->
            waiting p permission (perform w c) /\
            promises (perform w c) !! p =
              match promises w !! p with
              | Some x => Some x
              | None => option_map Resolved (answerOf permission c)
              end).
  { intros H. destruct (perform_channel w c H) as (L & T & Pr).
    unfold waiting, listenerRegistered, findTimer. rewrite L, T, Pr.
    split; [now repeat split |].
    destruct (promises w !! p); [reflexivity |].
    destruct c as [| | | | ev]; try reflexivity. exfalso. now apply (H ev). }
  destruct c as [| | | | [fromParent act dat | q]];
    try (apply Methods; intros ev; discriminate).
  - (* a message *)
    destruct (callListeners_state fromParent act dat (messageListeners w) w)
      as (_ & _ & L & T).
    split.
    + unfold waiting, listenerRegistered, findTimer. simpl.
      rewrite L, T. now repeat split.
    + change (perform w (Browser (MessageEvent fromParent act dat)))
        with (fold_left (callListener fromParent act dat)
                (messageListeners w) w).
      rewrite (callListeners_promise p permission) by exact P.
      unfold listenerRegistered in R. now rewrite R.
  - (* another timer *)
    simpl in NF. apply Nat.eqb_neq in NF.
    change (perform w (Browser (TimerEvent q))) with (dispatch w (TimerEvent q)).
    change (answerOf permission (Browser (TimerEvent q))) with (@None value).
    destruct (findTimer q w) as [t |] eqn:Fq.
    2:{ unfold dispatch. rewrite Fq. split; [now repeat split |].
        now destruct (promises w !! p). }
    rewrite (dispatch_timer w q t Fq Cl).
    split.
    + destruct (settle_state q (Rejected TimedOut)
                  (removeMessageListener q (dropTimer q w))) as (_ & _ & L & T).
      unfold waiting, listenerRegistered, findTimer. rewrite L, T. simpl.
      repeat split.
      * rewrite registered_filter_other by congruence. exact R.
      * intros l I. apply List.filter_In in I. now apply P.
      * rewrite find_filter_other by congruence. exact F.
      * intros t' I. apply List.filter_In in I. now apply Cl.
    + rewrite settle_lookup. simpl.
      destruct (promises w !! p); [reflexivity |].
      now rewrite decide_False.
Qed.

Lemma performAll_waiting (p : nat) (permission : string) (history : list call)
  (w : window) :
  waiting p permission w ->
  forallb (fun c => negb (fires p c)) history = true ->
  waiting p permission (performAll w history) /\
  promises (performAll w history) !! p =
    match promises w !! p with
    | Some x => Some x
    | None => option_map Resolved (firstAnswer permission history)
    end.
Proof.
  unfold performAll.
  revert w. induction history as [| c rest IH]; intros w W H; simpl.
  - split; [exact W | now destruct (promises w !! p)].
  - simpl in H. apply andb_true_iff in H. destruct H as [H1 H2].
    apply negb_true_iff in H1.
    destruct (perform_waiting p permission w c W H1) as [W' Pr].
    destruct (IH (perform w c) W' H2) as [W'' Pr'].
    split; [exact W'' |].
    rewrite Pr', Pr.
    destruct (promises w !! p); [reflexivity |].
    now destruct (answerOf permission c).
Qed.

Lemma wellFormed_numbered (w : window) :
  wellFormed w = true <-> numbered w.
Proof.
  unfold wellFormed, numbered.
  rewrite !andb_true_iff, !forallb_forall. split.
  - intros [[Hl Ht] Hp]. split; [| split].
    + intros l I. now apply Nat.ltb_lt, Hl.
    + intros t I. specialize (Ht t I).
      apply andb_true_iff in Ht. destruct Ht as [A B].
      split; [now apply Nat.ltb_lt |].
      destruct (timer_cleanUp t) as [x]. simpl in B.
      apply Nat.eqb_eq in B. now subst.
    + intros p r E. apply elem_of_map_to_list, list_elem_of_In in E.
      specialize (Hp _ E). now apply Nat.ltb_lt in Hp.
  - intros (Hl & Ht & Hp). split; [split |].
    + intros l I. now apply Nat.ltb_lt, Hl.
    + intros t I. destruct (Ht t I) as [A B].
      apply andb_true_iff. split; [now apply Nat.ltb_lt |].
      rewrite B. simpl. apply Nat.eqb_refl.
    + intros [p r] I. apply list_elem_of_In, elem_of_map_to_list in I.
      apply Nat.ltb_lt. simpl. now apply (Hp p r).
Qed.

Lemma wellFormed_inv (w : window) : wellFormed w = true -> numbered w.
Proof. apply wellFormed_numbered. Qed.

Lemma find_app_skip {A : Type} (f : A -> bool) (l1 l2 : list A) :
  (forall x, In x l1 -> f x = false) ->
  List.find f (l1 ++ l2) = List.find f l2.
Proof.
  induction l1 as [| x l1 IH]; simpl; intros H; [reflexivity |].
  rewrite (H x (or_introl eq_refl)). apply IH. intros y I. apply H. now right.
Qed.

(** What the exchange sets up in a well-formed window: a new promise,
    pending; its listener and its timer of 1000 ms; one message to the
    host, carrying the plugin's ID and the permission asked for. *)
Lemma exchange_starts (w : window) (permission : string) :
  wellFormed w = true ->
  let p := nextPromise w in
  let w1 := fst (checkPermission_exchange w permission) in
  snd (checkPermission_exchange w permission) = Deferred p /\
  waiting p permission w1 /\
  promises w1 !! p = None /\
  timers w1 = (timers w ++ [ timerOf p ])%list /\
  posted w1 =
    (posted w ++ [ {| action := "checkPermission"; id := uomaPluginId w;
                      data := permission |} ])%list /\
  uomaPluginId w1 = uomaPluginId w /\
  eventCallbackList w1 = eventCallbackList w.
Proof.
  intros WF. destruct (wellFormed_inv w WF) as (Hl & Ht & Hp).
  cbv zeta. unfold checkPermission_exchange, timedOutPromise. simpl.
  split; [reflexivity |]. split; [| split; [| repeat split]].
  - unfold waiting, listenerRegistered, findTimer. simpl.
    split; [| split; [| split]].
    + rewrite existsb_app. simpl. now rewrite Nat.eqb_refl, orb_true_r.
    + intros l I E. apply in_app_or in I. destruct I as [I | [<- | []]].
      * specialize (Hl l I). lia.
      * reflexivity.
    + rewrite find_app_skip.
      * simpl. now rewrite Nat.eqb_refl.
      * intros t I. apply Nat.eqb_neq. destruct (Ht t I). lia.
    + intros t I. apply in_app_or in I. destruct I as [I | [<- | []]].
      * now apply Ht.
      * reflexivity.
  - destruct (promises w !! nextPromise w) as [r |] eqn:E; [| reflexivity].
    specialize (Hp _ _ E). lia.
Qed.

(** The timer of [p] fires: the listener is removed first, then the promise
    is rejected if it is still pending. *)
Lemma timer_fires (p : nat) (permission : string) (w : window) :
  waiting p permission w ->
  let w' := dispatch w (TimerEvent p) in
  w' = settle p (Rejected TimedOut)
         (removeMessageListener p (dropTimer p w)) /\
  listenerRegistered p (removeMessageListener p (dropTimer p w)) = false /\
  listenerRegistered p w' = false /\
  promises w' !! p =
    Some (match promises w !! p with
          | Some r => r
          | None => Rejected TimedOut
          end).
Proof.
  intros (R & P & F & Cl). cbv zeta.
  rewrite (dispatch_timer w p _ F Cl).
  assert (Gone : listenerRegistered p
                   (removeMessageListener p (dropTimer p w)) = false)
    by apply registered_filter_same.
  split; [reflexivity |]. split; [exact Gone |]. split.
  - destruct (settle_state p (Rejected TimedOut)
                (removeMessageListener p (dropTimer p w))) as (_ & _ & L & _).
    unfold listenerRegistered in *. now rewrite L.
  - rewrite settle_lookup. simpl.
    destruct (promises w !! p); [reflexivity |]. now rewrite decide_True.
Qed.

Lemma existsb_filter_false {A : Type} (f g : A -> bool) (l : list A) :
  existsb f l = false -> existsb f (List.filter g l) = false.
Proof.
  induction l as [| x l IH]; simpl; [reflexivity |].
  intros H. apply orb_false_iff in H. destruct H as [H1 H2].
  destruct (g x); simpl; [rewrite H1 |]; now apply IH.
Qed.

(** Nothing registers a listener for [p] again. *)
Lemma perform_no_listener (p : nat) (w : window) (c : call) :
  listenerRegistered p w = false ->
  listenerRegistered p (perform w c) = false.
Proof.
  intros H.
  assert (Methods : (forall ev, c <> Browser ev) ->
                    listenerRegistered p (perform w c) = false).
  { intros N. unfold listenerRegistered.
    now rewrite (proj1 (perform_channel w c N)). }
  destruct c as [| | | | [fromParent act dat | q]];
    try (apply Methods; intros ev; discriminate).
  - destruct (callListeners_state fromParent act dat (messageListeners w) w)
      as (_ & _ & L & _).
    unfold listenerRegistered. simpl. now rewrite L.
  - simpl. destruct (findTimer q w) as [t |]; [| exact H].
    unfold runTimer.
    destruct (settle_state (timer_promise t) (Rejected TimedOut)
                (runCleanUp (timer_cleanUp t) (dropTimer q w)))
      as (_ & _ & L & _).
    unfold listenerRegistered. rewrite L.
    destruct (timer_cleanUp t). simpl. now apply existsb_filter_false.
Qed.

Lemma callListeners_settled (p : nat) (r : settled) (fromParent : bool)
  (act dat : value) (ls : list listener) (w : window) :
  promises w !! p = Some r ->
  promises (fold_left (callListener fromParent act dat) ls w) !! p = Some r.
Proof.
  revert w. induction ls as [| l ls IH]; intros w H; simpl; [exact H |].
  apply IH. unfold callListener.
  destruct (_ && _); [| exact H]. now rewrite settle_lookup, H.
Qed.

(** A promise that has settled stays as it is. *)
Lemma perform_settled (p : nat) (r : settled) (w : window) (c : call) :
  promises w !! p = Some r -> promises (perform w c) !! p = Some r.
Proof.
  intros H.
  assert (Methods : (forall ev, c <> Browser ev) ->
                    promises (perform w c) !! p = Some r).
  { intros N. now rewrite (proj2 (proj2 (perform_channel w c N))). }
  destruct c as [| | | | [fromParent act dat | q]];
    try (apply Methods; intros ev; discriminate).
  - now apply callListeners_settled.
  - simpl. destruct (findTimer q w) as [t |]; [| exact H].
    unfold runTimer. rewrite settle_lookup.
    destruct (timer_cleanUp t). simpl. now rewrite H.
Qed.

Lemma performAll_after (p : nat) (r : settled) (later : list call)
  (w : window) :
  listenerRegistered p w = false ->
  promises w !! p = Some r ->
  listenerRegistered p (performAll w later) = false /\
  promises (performAll w later) !! p = Some r.
Proof.
  unfold performAll.
  revert w. induction later as [| c rest IH]; intros w L S; simpl.
  - now split.
  - apply IH; [now apply perform_no_listener | now apply perform_settled].
Qed.

(** ** The numbering of promises is kept *)

Lemma settle_numbered (q : nat) (r : settled) (w : window) :
  (q < nextPromise w)%nat -> numbered w ->
  numbered (settle q r w) /\ nextPromise (settle q r w) = nextPromise w.
Proof.
  intros Q (Hl & Ht & Hp).
  assert (N : nextPromise (settle q r w) = nextPromise w)
    by (unfold settle; now destruct (promises w !! q)).
  destruct (settle_state q r w) as (_ & _ & L & T).
  split; [| exact N]. unfold numbered. rewrite N, L, T.
  split; [exact Hl |]. split; [exact Ht |].
  intros p x E. rewrite settle_lookup in E.
  destruct (promises w !! p) as [y |] eqn:P; [now apply (Hp p y) |].
  destruct (decide (q = p)) as [<- | _]; [exact Q | discriminate].
Qed.

Lemma callListeners_numbered (fromParent : bool) (act dat : value)
  (ls : list listener) (w : window) :
  (forall l, In l ls -> (listener_promise l < nextPromise w)%nat) ->
  numbered w ->
  numbered (fold_left (callListener fromParent act dat) ls w).
Proof.
  revert w. induction ls as [| l ls IH]; intros w H N; simpl; [exact N |].
  assert (Step : numbered (callListener fromParent act dat w l) /\
                 nextPromise (callListener fromParent act dat w l) =
                   nextPromise w).
  { unfold callListener. destruct (_ && _); [| now split].
    apply settle_numbered; [apply H; now left | exact N]. }
  destruct Step as [N' E]. apply IH; [| exact N'].
  intros l' I. rewrite E. apply H. now right.
Qed.

Lemma freshWindow_wellFormed (top : bool) (flag : option value)
  (members : string -> string -> value) :
  wellFormed (freshWindow top flag members) = true.
Proof. reflexivity. Qed.

Lemma exchange_wellFormed (w : window) (permission : string) :
  wellFormed w = true ->
  wellFormed (fst (checkPermission_exchange w permission)) = true.
Proof.
  rewrite !wellFormed_numbered. intros (Hl & Ht & Hp).
  unfold numbered, checkPermission_exchange, timedOutPromise. simpl.
  split; [| split].
  - intros l I. apply in_app_or in I. destruct I as [I | [<- | []]].
    + specialize (Hl l I). lia.
    + simpl. lia.
  - intros t I. apply in_app_or in I. destruct I as [I | [<- | []]].
    + destruct (Ht t I). split; [lia | assumption].
    + simpl. split; [lia | reflexivity].
  - intros p r E. specialize (Hp p r E). lia.
Qed.

Lemma perform_next (w : window) (c : call) :
  (forall ev, c <> Browser ev) -> nextPromise (perform w c) = nextPromise w.
Proof.
  destruct c as [pluginId | permission | target callback | target callback | ev];
    simpl; intros H.
  - unfold init. destruct pluginId; try reflexivity.
    destruct (_ <? _)%nat; [reflexivity |].
    destruct (_ || _); reflexivity.
  - now destruct (checkPermission_rejects w permission) as [e ->].
  - now destruct (on_settles_at_once w target callback) as [e ->].
  - unfold off.
    destruct (notInitialized w); [reflexivity |].
    destruct target; try reflexivity.
    destruct (negb _); [reflexivity |].
    destruct (_ && _); [| reflexivity].
    destruct (callbackSlot _ _ _) as [l | v].
    + destruct (spliceFirst callback l); reflexivity.
    + destruct (truthy v); reflexivity.
  - exfalso. now apply (H ev).
Qed.

(** Every call and every event keeps a window well formed. *)
Lemma perform_wellFormed (w : window) (c : call) :
  wellFormed w = true -> wellFormed (perform w c) = true.
Proof.
  rewrite !wellFormed_numbered. intros N.
  assert (Methods : (forall ev, c <> Browser ev) -> numbered (perform w c)).
  { intros H. destruct (perform_channel w c H) as (L & T & P).
    unfold numbered. now rewrite L, T, P, (perform_next w c H). }
  destruct c as [| | | | [fromParent act dat | q]];
    try (apply Methods; intros ev; discriminate).
  - apply callListeners_numbered; [apply N | exact N].
  - simpl. destruct (findTimer q w) as [t |] eqn:F; [| exact N].
    apply List.find_some in F. destruct F as [I _].
    destruct N as (Hl & Ht & Hp). destruct (Ht t I) as [Lt Cl].
    unfold runTimer. rewrite Cl.
    apply settle_numbered; [exact Lt |].
    unfold numbered. simpl. split; [| split; [| exact Hp]].
    + intros l Il. apply List.filter_In in Il. now apply Hl.
    + intros t' It. apply List.filter_In in It. now apply Ht.
Qed.

(** So is every window that a history of calls and events leads to from
    the window as loaded. *)
Lemma performAll_wellFormed (top : bool) (flag : option value)
  (members : string -> string -> value) (history : list call) :
  wellFormed (performAll (freshWindow top flag members) history) = true.
Proof.
  unfold performAll.
  generalize (freshWindow_wellFormed top flag members).
  generalize (freshWindow top flag members).
  induction history as [| c rest IH]; intros w WF; simpl; [exact WF |].
  apply IH. now apply perform_wellFormed.
Qed.

(** The code after the guards, taken by itself (no call of
    [checkPermission] gets there, see [checkPermission_rejects]).  Where the
    exchange has been set up and, among whatever calls and events follow,
    none is an answer to the request before the timer of 1000 ms fires: the
    promise is still pending and the listener still registered when it
    fires; the timer callback first removes the listener and then rejects
    the promise with the Timeout error; from then on no listener of the
    exchange is registered and the promise stays rejected. *)
Lemma exchange_times_out (w : window) (permission : string)
  (history later : list call) :
  wellFormed w = true ->
  forallb (fun c => negb (answers permission c) &&
                    negb (fires (nextPromise w) c)) history = true ->
  let p := nextPromise w in
  let w1 := fst (checkPermission_exchange w permission) in
  let w2 := performAll w1 history in
  let w3 := dispatch w2 (TimerEvent p) in
  snd (checkPermission_exchange w permission) = Deferred p /\
  In {| timer_promise := p; timer_cleanUp := RemoveMessageListener p;
        timer_delay := 1000 |} (timers w1) /\
  promises w2 !! p = None /\
  listenerRegistered p w2 = true /\
  w3 = settle p (Rejected TimedOut)
         (removeMessageListener p (dropTimer p w2)) /\
  listenerRegistered p (removeMessageListener p (dropTimer p w2)) = false /\
  promises w3 !! p = Some (Rejected TimedOut) /\
  kindOf TimedOut = Timeout /\
  listenerRegistered p (performAll w3 later) = false /\
  promises (performAll w3 later) !! p = Some (Rejected TimedOut).
Proof.
  intros WF H. cbv zeta.
  destruct (exchange_starts w permission WF) as (D & W1 & P1 & T1 & _).
  cbv zeta in D, W1, P1, T1.
  assert (NF : forallb (fun c => negb (fires (nextPromise w) c)) history = true).
  { rewrite forallb_forall in H |- *. intros c I.
    specialize (H c I). now apply andb_true_iff in H. }
  assert (NA : firstAnswer permission history = None).
  { clear NF. induction history as [| c rest IH]; [reflexivity |].
    simpl in H |- *. apply andb_true_iff in H. destruct H as [Hc Hr].
    apply andb_true_iff in Hc. destruct Hc as [Hc _].
    apply negb_true_iff in Hc. rewrite (answers_answerOf _ _ Hc).
    now apply IH. }
  destruct (performAll_waiting _ _ history _ W1 NF) as [W2 P2].
  rewrite P1, NA in P2. cbn [option_map] in P2.
  destruct (timer_fires _ _ _ W2) as (E3 & G & L3 & P3).
  cbv zeta in E3, L3, P3. rewrite P2 in P3.
  destruct (performAll_after _ _ later _ L3 P3) as [La Pa].
  repeat split; try assumption.
  - rewrite T1. apply in_or_app. right. now left.
  - now destruct W2.
Qed.

(** The same code on the path with an answer.  The listener of an exchange
    stays registered until the timer of the exchange fires, whether or not
    an answer has come in before: an answer resolves the promise (the first
    answer decides, later ones change nothing) and leaves the listener in
    place.  When the timer fires the listener is removed, and the promise
    is rejected with the Timeout error if no answer had come. *)
Lemma exchange_listener_stays_until_the_timer_fires (w : window)
  (permission : string) (history later : list call) :
  wellFormed w = true ->
  forallb (fun c => negb (fires (nextPromise w) c)) history = true ->
  let p := nextPromise w in
  let w1 := fst (checkPermission_exchange w permission) in
  let w2 := performAll w1 history in
  let w3 := dispatch w2 (TimerEvent p) in
  listenerRegistered p w1 = true /\
  listenerRegistered p w2 = true /\
  promises w2 !! p = option_map Resolved (firstAnswer permission history) /\
  listenerRegistered p w3 = false /\
  promises w3 !! p =
    Some (match firstAnswer permission history with
          | Some dat => Resolved dat
          | None => Rejected TimedOut
          end) /\
  listenerRegistered p (performAll w3 later) = false /\
  promises (performAll w3 later) !! p = promises w3 !! p.
Proof.
  intros WF NF. cbv zeta.
  destruct (exchange_starts w permission WF) as (D & W1 & P1 & _).
  cbv zeta in D, W1, P1.
  destruct (performAll_waiting _ _ history _ W1 NF) as [W2 P2].
  rewrite P1 in P2.
  destruct (timer_fires _ _ _ W2) as (E3 & G & L3 & P3).
  cbv zeta in E3, L3, P3. rewrite P2 in P3.
  destruct (performAll_after _ _ later _ L3 P3) as [La Pa].
  split; [now destruct W1 |]. split; [now destruct W2 |].
  split; [exact P2 |]. split; [exact L3 |]. split.
  - rewrite P3. now destruct (firstAnswer permission history).
  - split; [exact La | now rewrite Pa, P3].
Qed.


(** * The theorems at work on concrete windows *)

(** A window with one callback registered for ["todo@done"]. *)
Lemma subscribedWindow_sequence :
  sequenceOf
    (fst (on_via (answering true) pluginWindow (VStr "todo@done") (VFun 0)))
    "todo" "done" = Some ([] ++ VFun 0 :: [])%list.
Proof. vm_compute. reflexivity. Qed.

Lemma checkPermission_invalid_name_sends_nothing_witness :
  isValidCapability_spec (VStr "bogus") = false /\
  notInitialized pluginWindow = false /\
  exists e,
    checkPermission pluginWindow (VStr "bogus") =
      (pluginWindow, Settled (Rejected e)) /\
    kindOf e = InvalidArgument.
Proof.
  split; [reflexivity |]. split; [reflexivity |].
  apply (proj2 (checkPermission_invalid_name_sends_nothing pluginWindow
                  (VStr "bogus") eq_refl) eq_refl).
Defined.

Lemma checkPermission_preconditions_in_order_witness :
  (noInitSucceeds hostedWindow [ CallInit (VStr "abc"); CallOff VNull VNull ]
     = true /\
   checkPermission hostedWindow (VNum 5) =
     (hostedWindow, Settled (Rejected CallInitFirst))) /\
  (notInitialized hostedWindow = true /\
   checkPermission hostedWindow (VStr "bogus") =
     (hostedWindow, Settled (Rejected CallInitFirst))) /\
  (notInitialized pluginWindow = false /\ typeof (VNum 5) <> "string" /\
   checkPermission pluginWindow (VNum 5) =
     (pluginWindow, Settled (Rejected (PermissionNotString "number")))) /\
  (isValidPermissionName (VStr "bogus") = false /\
   checkPermission pluginWindow (VStr "bogus") =
     (pluginWindow, Settled (Rejected (InvalidPermissionName "bogus")))).
Proof.
  split; [| split; [| split]].
  - split; [reflexivity |].
    apply (proj1 (checkPermission_preconditions_in_order hostedWindow (VNum 5))
             false (Some (VBool true)) (fun _ _ => VUndefined)
             [ CallInit (VStr "abc"); CallOff VNull VNull ]); reflexivity.
  - split; [reflexivity |].
    apply (proj1 (proj2 (checkPermission_preconditions_in_order hostedWindow
                           (VStr "bogus")))). reflexivity.
  - split; [reflexivity |]. split; [discriminate |].
    apply (proj1 (proj2 (proj2 (checkPermission_preconditions_in_order
                                  pluginWindow (VNum 5)))));
      [reflexivity | discriminate].
  - split; [reflexivity |].
    apply (proj2 (proj2 (proj2 (checkPermission_preconditions_in_order
                                  pluginWindow (VStr "bogus"))))
             eq_refl eq_refl "bogus" eq_refl).
Defined.

Lemma init_contract_witness :
  init hostedWindow (VNum 1) =
    (hostedWindow, Throws (PluginIdNotString "number")) /\
  init hostedWindow (VStr "abc") = (hostedWindow, Throws InvalidPluginId) /\
  init (freshWindow true (Some (VBool true)) (fun _ _ => VUndefined))
    (VStr "plugin-abcd") =
    (freshWindow true (Some (VBool true)) (fun _ _ => VUndefined),
     Returns false) /\
  init (freshWindow false None (fun _ _ => VUndefined)) (VStr "plugin-abcd") =
    (freshWindow false None (fun _ _ => VUndefined), Returns false) /\
  (snd (init hostedWindow (VStr "plugin-abcd")) = Returns true /\
   uomaPluginId (fst (init hostedWindow (VStr "plugin-abcd"))) =
     VStr "plugin-abcd").
Proof.
  split; [| split; [| split; [| split]]].
  - apply (proj1 (init_contract hostedWindow (VNum 1))). discriminate.
  - apply (proj1 (proj2 (init_contract hostedWindow (VStr "abc"))) "abc");
      [reflexivity | simpl; lia].
  - apply (proj1 (proj2 (proj2 (init_contract _ (VStr "plugin-abcd"))))
             "plugin-abcd"); [reflexivity | simpl; lia | now left].
  - apply (proj1 (proj2 (proj2 (init_contract _ (VStr "plugin-abcd"))))
             "plugin-abcd"); [reflexivity | simpl; lia | right; now left].
  - destruct (proj2 (proj2 (proj2 (init_contract hostedWindow
                                     (VStr "plugin-abcd"))))
                "plugin-abcd" (VBool true) eq_refl
                ltac:(simpl; lia) eq_refl eq_refl eq_refl) as (A & B & _).
    split; assumption.
Defined.

Lemma off_contract_witness :
  off pluginWindow (VStr "todo@done") (VFun 0) =
    (pluginWindow, Rejected NoCallbackRegistered) /\
  snd (off (fst (on_via (answering true) pluginWindow (VStr "todo@done")
                   (VFun 0)))
         (VStr "todo@done") (VFun 1)) = Rejected CannotFindCallback /\
  snd (off (fst (on_via (answering true) pluginWindow (VStr "todo@done")
                   (VFun 0)))
         (VStr "todo@done") (VFun 0)) = Resolved (VFun 0).
Proof.
  split; [| split].
  - apply (proj1 (off_contract pluginWindow "todo@done" "todo" "done" (VFun 0)
                    eq_refl eq_refl eq_refl eq_refl)). reflexivity.
  - destruct (proj1 (proj2 (off_contract
                (fst (on_via (answering true) pluginWindow (VStr "todo@done")
                        (VFun 0)))
                "todo@done" "todo" "done" (VFun 1)
                eq_refl eq_refl eq_refl eq_refl))
              [ VFun 0 ] subscribedWindow_sequence eq_refl) as [-> _].
    reflexivity.
  - apply (proj1 (proj2 (proj2 (off_contract
                (fst (on_via (answering true) pluginWindow (VStr "todo@done")
                        (VFun 0)))
                "todo@done" "todo" "done" (VFun 0)
                eq_refl eq_refl eq_refl eq_refl)))
             [] [] subscribedWindow_sequence eq_refl).
Defined.

Lemma on_never_resolves_witness :
  snd (on_via (answering true) pluginWindow (VStr "todo@done") (VFun 0)) =
    Done (Rejected (UnknownEventNamed "todo@done")).
Proof.
  apply (proj2 (proj2 (proj2 on_never_resolves))
           (answering true) pluginWindow pluginWindow "todo@done" "todo" "done"
           (VFun 0) (VBool true) eq_refl eq_refl eq_refl eq_refl eq_refl
           eq_refl).
Defined.

Lemma well_formed_check_never_times_out_witness :
  notInitialized pluginWindow = false /\
  isValidCapability_spec (VStr "clock/timezone:read") = true /\
  checkPermission pluginWindow (VStr "clock/timezone:read") =
    (pluginWindow,
     Settled (Rejected (InvalidPermissionName "clock/timezone:read"))).
Proof.
  split; [reflexivity |]. split; [reflexivity |].
  destruct (well_formed_check_never_times_out pluginWindow
              (VStr "clock/timezone:read") eq_refl eq_refl)
    as (s & E & H & _).
  injection E as <-. exact H.
Defined.

Lemma well_formed_check_registers_no_listener_witness :
  notInitialized pluginWindow = false /\
  isValidCapability_spec (VStr "clock/timezone:read") = true /\
  messageListeners
    (fst (checkPermission pluginWindow (VStr "clock/timezone:read"))) = [] /\
  posted (fst (checkPermission pluginWindow (VStr "clock/timezone:read"))) = [].
Proof.
  split; [reflexivity |]. split; [reflexivity |].
  destruct (well_formed_check_registers_no_listener pluginWindow
              (VStr "clock/timezone:read") true (VBool true) eq_refl eq_refl)
    as (s & _ & _ & L & P & _).
  split; [exact L | exact P].
Defined.

(** * Further properties of the module *)

(** ** Event names are taken apart at the one [@] *)


(** [split] gives one segment more than there are separators. *)
Lemma split_length (sep : ascii) (s : string) :
  List.length (split sep s) = S (countChar sep s).
Proof.
  induction s as [| c rest IH]; simpl; [reflexivity |].
  destruct (Ascii.eqb c sep); simpl; [now rewrite IH |].
  destruct (split sep rest) as [| x xs]; simpl in *; [discriminate | exact IH].
Qed.




(** X2.  Whenever [off] fails on one of its guards (session, type of the
    event name, type of the callback, unknown event), [on] fails with the
    same error for the same arguments, whatever checker it has, without
    calling it; and neither changes the window. *)
Theorem on_and_off_share_their_guards
  (check : window -> value -> window * promise)
  (w w' : window) (target callback : value) (e : error) :
  off w target callback = (w', Rejected e) ->
  kindOf e <> NotFound ->
  w' = w /\ on_via check w target callback = (w, Done (Rejected e)).
Proof.
  unfold off, on_via.
  destruct (notInitialized w); [intros [= <- <-] _; now split |].
  destruct target; try (intros [= <- <-] _; now split).
  destruct (negb _); [intros [= <- <-] _; now split |].
  destruct (_ && _); [| intros [= <- <-] _; now split].
  destruct (callbackSlot _ _ _) as [l | v].
  - destruct (spliceFirst callback l); [discriminate |].
    intros [= <- <-] K. now contradiction K.
  - destruct (truthy v); intros [= <- <-] K; now contradiction K.
Qed.

(** ** The two tables agree *)

Lemma eventList_permissions_listed :
  forallb
    (fun ns =>
       forallb
         (fun ev =>
            match assoc (fst ns) permissions with
            | Some row =>
                existsb (String.eqb (snd ev)) row &&
                Nat.eqb (countChar "/" (snd ev)) 0
            | None => false
            end)
         (snd ns))
    eventList = true.
Proof. vm_compute. reflexivity. Qed.

(** X3.  Every event of [eventList] names a permission that [permissions]
    lists under the same namespace.  What [on] hands to [checkPermission]
    is that bare leaf: it has no [/], so that [split('/')] gives a single
    segment for it. *)
Theorem events_need_listed_permissions (w : window) (a b : string) :
  catalogEvent a b = true ->
  exists permission row,
    requiredPermission w a b = VStr permission /\
    assoc a permissions = Some row /\
    In permission row /\
    List.length (split "/" permission) = 1%nat.
Proof.
  intros H. destruct (catalogEvent_inv _ _ H) as (events & p & A & B & _).
  pose proof (assoc_In _ _ _ A) as IA. pose proof (assoc_In _ _ _ B) as IB.
  pose proof eventList_permissions_listed as L.
  rewrite forallb_forall in L. specialize (L _ IA). cbn [fst snd] in L.
  rewrite forallb_forall in L. specialize (L _ IB). cbn [fst snd] in L.
  destruct (assoc a permissions) as [row |]; [| discriminate].
  apply andb_true_iff in L. destruct L as [L1 L2].
  apply existsb_exists in L1. destruct L1 as (x & Ix & E).
  apply String.eqb_eq in E. subst x. apply Nat.eqb_eq in L2.
  exists p, row. repeat split; try assumption.
  - unfold requiredPermission, getProperty. now rewrite A, B.
  - now rewrite split_length, L2.
Qed.

(** ** The session over time *)

Lemma init_surroundings (w : window) (pluginId : value) :
  parentIsWindow (fst (init w pluginId)) = parentIsWindow w /\
  parentIsUoma (fst (init w pluginId)) = parentIsUoma w /\
  eventCallbackList (fst (init w pluginId)) = eventCallbackList w.
Proof.
  unfold init. destruct pluginId; try (repeat split; fail).
  destruct (_ <? _)%nat; [repeat split |].
  destruct (_ || _); repeat split.
Qed.

Lemma last_default {A : Type} (x : A) (l : list A) (d d' : A) :
  List.last (x :: l) d = List.last (x :: l) d'.
Proof.
  revert x. induction l as [| y l IH]; intros x; [reflexivity |].
  change (List.last (y :: l) d = List.last (y :: l) d'). apply IH.
Qed.

(** X4.  Under a host that is recognised, [init] may be called again and
    again: a call with an ID that is no string or is too short throws and
    changes nothing, every other call overwrites [window.uomaPluginId] and
    adds one more storage listener.  After a run of calls the ID is the
    last valid one and the listeners have grown by the number of valid
    ones; the registry is as it was. *)
Theorem init_again_overwrites (w : window) (flag : value)
  (ids : list value) :
  parentIsWindow w = false ->
  parentIsUoma w = Some flag ->
  truthy flag = true ->
  let w' := performAll w (map CallInit ids) in
  uomaPluginId w' = List.last (List.filter validId ids) (uomaPluginId w) /\
  storageListeners w' =
    (storageListeners w + List.length (List.filter validId ids))%nat /\
  eventCallbackList w' = eventCallbackList w.
Proof.
  cbv zeta. unfold performAll.
  revert w. induction ids as [| pluginId ids IH]; intros w P F T; simpl.
  - repeat split. lia.
  - destruct (init_surroundings w pluginId) as (Sp & Sf & Sr).
    destruct (IH (fst (init w pluginId))) as (U & L & R);
      [rewrite Sp; exact P | rewrite Sf; exact F | exact T |].
    rewrite U, L, R, Sr. clear IH U L R.
    destruct pluginId; try (simpl; repeat split; fail).
    assert (V : validId (VStr s) = negb (String.length s <? 4)%nat)
      by reflexivity.
    cbn [List.filter]. rewrite V. unfold init, isUoma.
    destruct (String.length s <? 4)%nat; cbn [negb fst]; [repeat split |].
    rewrite P, F, T. cbn [negb orb fst]. repeat split.
    + generalize (List.filter validId ids). intros l.
      destruct l as [| x l]; [reflexivity |].
      change (List.last (x :: l) (VStr s) =
              List.last (x :: l) (uomaPluginId w)).
      apply last_default.
    + simpl. lia.
Qed.

Lemma perform_keeps_session (w : window) (c : call) :
  notInitialized w = false -> notInitialized (perform w c) = false.
Proof.
  intros N. destruct (initSucceeds w c) eqn:S.
  - destruct c as [pluginId | | | |]; try discriminate.
    simpl in S |- *. unfold init in *.
    destruct pluginId; try discriminate.
    destruct (String.length s <? 4)%nat eqn:L; [discriminate |].
    destruct (_ || _); [discriminate |].
    unfold notInitialized. simpl. exact L.
  - rewrite (notInitialized_session w); [exact N |].
    now apply perform_session.
Qed.

(** X5.  Once [init] has succeeded the session stays valid: no call of any
    method and no event brings a window back to where the methods answer
    with the call-init-first error. *)
Theorem session_is_never_lost (w : window) (history : list call) :
  notInitialized w = false ->
  notInitialized (performAll w history) = false.
Proof.
  unfold performAll. revert w.
  induction history as [| c rest IH]; intros w N; simpl; [exact N |].
  apply IH. now apply perform_keeps_session.
Qed.

(** ** Messages that are no answer *)

(** X7.  A message that does not come from the parent, or whose action is
    not [checkPermission:] followed by the permission of a check under
    way, changes nothing at all: no promise is settled by it. *)
Theorem unrelated_messages_change_nothing (w : window) (fromParent : bool)
  (act dat : value) :
  fromParent = false \/
  (forall l, In l (messageListeners w) ->
             strict_eq act (VStr ("checkPermission:" ++ listener_permission l))
               = false) ->
  dispatch w (MessageEvent fromParent act dat) = w.
Proof.
  intros H. simpl.
  assert (G : forall ls,
             (forall l, In l ls -> In l (messageListeners w)) ->
             fold_left (callListener fromParent act dat) ls w = w).
  { induction ls as [| l ls IH]; intros Sub; simpl; [reflexivity |].
    assert (E : callListener fromParent act dat w l = w).
    { unfold callListener. destruct H as [-> | H]; [reflexivity |].
      rewrite (H l (Sub l (or_introl eq_refl))). now rewrite andb_false_r. }
    rewrite E. apply IH. intros l' I. apply Sub. now right. }
  apply G. trivial.
Qed.

(** ** Appending and removing *)

(** X8.  With a valid session, an event of the catalogue and a function that
    the event's array does not hold yet: after [on] has appended the
    function, [off] resolves with it and the array is what it was before,
    in the same order.  The array itself stays, empty if need be: a second
    [off] fails because the callback is not found, also where the event
    had no array at all before. *)
Theorem off_undoes_on (w : window) (target a b : string)
  (callback granted : value) :
  notInitialized w = false ->
  split "@" target = [ a; b ] ->
  catalogEvent a b = true ->
  typeof callback = "function" ->
  truthy granted = true ->
  occurrences callback (callbacksOf w a b) = 0%nat ->
  let w1 := fst (on_resume w target a b callback (Resolved granted)) in
  let first := off w1 (VStr target) callback in
  let second := off (fst first) (VStr target) callback in
  snd first = Resolved callback /\
  sequenceOf (fst first) a b = Some (callbacksOf w a b) /\
  second = (fst first, Rejected CannotFindCallback).
Proof.
  intros N Sp C T G O. cbv zeta.
  pose proof (on_resume_session w target a b callback (Resolved granted)) as U.
  destruct (on_resume_granted w target a b callback granted C G)
    as (w1 & R & Q & _).
  rewrite R in U |- *. cbn [fst snd] in U |- *.
  assert (N1 : notInitialized w1 = false)
    by (rewrite (notInitialized_session w w1); assumption).
  rewrite (off_catalog w1 target a b callback N1 Sp C T), Q.
  rewrite (spliceFirst_first _ _ _ O), app_nil_r. cbn [fst snd].
  assert (Q2 : sequenceOf (storeCallbacks a b (callbacksOf w a b) w1) a b =
               Some (callbacksOf w a b))
    by (rewrite sequenceOf_storeCallbacks; now rewrite decide_True).
  split; [reflexivity |]. split; [exact Q2 |].
  assert (N2 : notInitialized (storeCallbacks a b (callbacksOf w a b) w1) =
               false) by exact N1.
  rewrite (off_catalog _ target a b callback N2 Sp C T), Q2.
  now rewrite (spliceFirst_absent _ _ O).
Qed.

(** ** What the registry holds *)

Lemma callbackSlot_Callbacks (w : window) (a b : string) (l : list value) :
  callbackSlot w a b = Callbacks l ->
  sequenceOf w a b = Some l /\ is_Some (eventCallbackList w !! a).
Proof.
  unfold callbackSlot, sequenceOf.
  destruct (eventCallbackList w !! a) as [m |]; simpl.
  - destruct (m !! b); [intros [= ->]; eauto |].
    destruct (inherited b); discriminate.
  - destruct (inherited a); discriminate.
Qed.

Lemma storeCallbacks_clean (a b : string) (l : list value) (w : window) :
  registryClean w ->
  inherited a = false ->
  catalogEvent a b = true ->
  (forall x, In x l -> typeof x = "function") ->
  registryClean (storeCallbacks a b l w).
Proof.
  intros [K S] Ia C F. split.
  - intros a' m. unfold storeCallbacks. simpl.
    destruct (decide (a = a')) as [<- | Na]; [now intros _ |].
    rewrite lookup_insert_ne by assumption. apply K.
  - intros a' b' l'. rewrite sequenceOf_storeCallbacks.
    destruct (decide (a = a' /\ b = b')) as [[<- <-] | _].
    + intros [= <-]. now split.
    + apply S.
Qed.

Lemma initNamespace_clean (a : string) (w : window) :
  registryClean w -> registryClean (initNamespace a w).
Proof.
  intros [K S]. split.
  - intros a' m. unfold initNamespace.
    destruct (eventCallbackList w !! a) eqn:E; [apply K |].
    destruct (inherited a) eqn:I; [apply K |]. simpl.
    destruct (decide (a = a')) as [<- | Na]; [now intros _ |].
    rewrite lookup_insert_ne by assumption. apply K.
  - intros a' b' l. rewrite sequenceOf_initNamespace. apply S.
Qed.

Lemma spliceFirst_In (callback x : value) (l l' : list value) :
  spliceFirst callback l = Some l' -> In x l' -> In x l.
Proof.
  revert l'. induction l as [| y l IH]; intros l'; simpl; [discriminate |].
  destruct (strict_eq y callback).
  - intros [= <-] I. now right.
  - destruct (spliceFirst callback l) as [r |]; [| discriminate].
    intros [= <-] [<- | I]; [now left | right; now apply (IH r)].
Qed.

(** A truthy entry of [eventList] under names that are no members of
    [Object.prototype] is an event of the catalogue. *)
Lemma requiredPermission_own (w : window) (a b : string) :
  inherited a = false -> inherited b = false ->
  truthy (requiredPermission w a b) = true ->
  catalogEvent a b = true.
Proof.
  unfold requiredPermission, getProperty, catalogEvent. intros Ia Ib.
  destruct (assoc a eventList) as [events |]; [| now rewrite Ia].
  destruct (assoc b events); [reflexivity | now rewrite Ib].
Qed.

Lemma on_resume_clean (w : window) (target a b : string)
  (callback : value) (awaited : settled) :
  registryClean w ->
  typeof callback = "function" ->
  truthy (requiredPermission w a b) = true ->
  registryClean (fst (on_resume w target a b callback awaited)).
Proof.
  intros Cl T R. unfold on_resume.
  destruct awaited as [result | e]; [| exact Cl].
  destruct (negb (truthy result)); [exact Cl |].
  pose proof (initNamespace_clean a w Cl) as Cl1.
  destruct (callbackSlot (initNamespace a w) a b) as [l | v] eqn:Sl.
  - destruct (callbackSlot_Callbacks _ _ _ _ Sl) as [Q [m M]].
    destruct Cl1 as [K S]. destruct (S a b l Q) as [C F].
    apply storeCallbacks_clean; [now split | now apply (K a m) | exact C |].
    intros x I. apply in_app_or in I. destruct I as [I | [<- | []]]; auto.
  - destruct (truthy v) eqn:Tv; [exact Cl1 |].
    destruct (eventCallbackList (initNamespace a w) !! a) as [m |] eqn:M;
      [| exact Cl1].
    assert (Ia : inherited a = false) by (destruct Cl1 as [K _]; now apply (K a m)).
    assert (Ib : inherited b = false).
    { unfold callbackSlot in Sl. rewrite M in Sl.
      destruct (m !! b); [discriminate |].
      destruct (inherited b); [| reflexivity].
      injection Sl as <-. discriminate. }
    apply storeCallbacks_clean; try assumption.
    + now apply (requiredPermission_own w).
    + intros x [<- | []]. exact T.
Qed.

Lemma off_clean (w : window) (target callback : value) :
  registryClean w -> registryClean (fst (off w target callback)).
Proof.
  intros Cl. unfold off.
  destruct (notInitialized w); [exact Cl |].
  destruct target; try exact Cl.
  destruct (negb _); [exact Cl |].
  destruct (_ && _); [| exact Cl].
  destruct (callbackSlot _ _ _) as [l | v] eqn:Sl.
  - destruct (spliceFirst callback l) as [l' |] eqn:Sf; [| exact Cl].
    destruct (callbackSlot_Callbacks _ _ _ _ Sl) as [Q [m M]].
    pose proof Cl as [K S]. destruct (S _ _ l Q) as [C F].
    apply storeCallbacks_clean; [exact Cl | now apply (K _ m) | exact C |].
    intros x I. apply F. now apply (spliceFirst_In callback x l l').
  - destruct (truthy v); exact Cl.
Qed.

(** X9.  The registry starts empty and, whatever [on] and [off] are called
    with and whatever the check of [on] settles with, it only ever has
    arrays for events of the catalogue, and the arrays hold functions
    only: [on] appends after its guards, also when it is resumed later,
    even for a key that is found on [Object.prototype]; [off] only takes
    elements out. *)
Theorem registry_holds_functions_of_catalogue_events :
  (forall top flag members, registryClean (freshWindow top flag members)) /\
  (forall w target a b callback awaited,
      registryClean w ->
      typeof callback = "function" ->
      truthy (requiredPermission w a b) = true ->
      registryClean (fst (on_resume w target a b callback awaited))) /\
  (forall check w target callback,
      registryClean w ->
      (forall v, registryClean (fst (check w v)) /\
                 builtinMember (fst (check w v)) = builtinMember w) ->
      registryClean (fst (on_via check w target callback))) /\
  (forall w target callback,
      registryClean w -> registryClean (fst (off w target callback))).
Proof.
  split; [| split; [| split]].
  - intros top flag members. split.
    + intros a m. simpl. rewrite lookup_empty. discriminate.
    + intros a b l. unfold sequenceOf. simpl. rewrite lookup_empty.
      discriminate.
  - apply on_resume_clean.
  - intros check w target callback Cl H. unfold on_via.
    destruct (notInitialized w); [exact Cl |].
    destruct target; try exact Cl.
    destruct (negb (String.eqb (typeof callback) "function")) eqn:T;
      [exact Cl |].
    apply negb_false_iff, String.eqb_eq in T.
    destruct (_ && _) eqn:G; [| exact Cl].
    apply andb_true_iff in G. destruct G as [_ G].
    set (a := nth 0 (split "@" s) "") in *.
    set (b := nth 1 (split "@" s) "") in *.
    destruct (H (requiredPermission w a b)) as [Cl1 B].
    destruct (check w (requiredPermission w a b)) as [w1 [r | p]];
      [| exact Cl1].
    simpl in Cl1, B.
    assert (R1 : requiredPermission w1 a b = requiredPermission w a b)
      by (unfold requiredPermission; now rewrite B).
    pose proof (on_resume_clean w1 s a b callback r Cl1 T) as Cl2.
    rewrite R1 in Cl2. specialize (Cl2 G).
    destruct (on_resume w1 s a b callback r). exact Cl2.
  - apply off_clean.
Qed.

(** ** The module as shipped *)




(** ** on when the check says no *)

(** X12.  With a valid session, a function as callback and an event name
    that [eventList] knows, [on] stores nothing unless its check resolves
    with a truthy value: a check that is rejected (not initialised, invalid
    name, timed out) makes [on] reject with that same error, and a check
    that resolves with a falsy value makes it reject with the
    needs-permission error; either way the window is as the check left
    it. *)
Theorem on_passes_on_a_refusal
  (check : window -> value -> window * promise)
  (w w1 : window) (target a b : string) (callback : value) (r : settled) :
  notInitialized w = false ->
  split "@" target = [ a; b ] ->
  truthy (requiredPermission w a b) = true ->
  typeof callback = "function" ->
  check w (requiredPermission w a b) = (w1, Settled r) ->
  (forall e, r = Rejected e ->
     on_via check w (VStr target) callback = (w1, Done (Rejected e))) /\
  (forall v, r = Resolved v -> truthy v = false ->
     on_via check w (VStr target) callback =
       (w1, Done (Rejected (NeedsPermission (requiredPermission w1 a b)))) /\
     kindOf (NeedsPermission (requiredPermission w1 a b)) = PermissionDenied).
Proof.
  intros N Sp R T K.
  assert (E : on_via check w (VStr target) callback =
              let (w2, out) := on_resume w1 target a b callback r in
              (w2, Done out)).
  { unfold on_via. rewrite N, T, Sp.
    cbn [nth List.length Nat.eqb negb String.eqb Ascii.eqb Bool.eqb andb].
    now rewrite R, K. }
  split.
  - intros e ->. now rewrite E.
  - intros v -> F. rewrite E.
    destruct (on_resume_denied w1 target a b callback v F) as [-> _].
    now split.
Qed.

(** * The further properties at work on concrete windows *)


Lemma on_and_off_share_their_guards_witness :
  on_via (answering true) hostedWindow (VStr "todo@done") (VFun 0) =
    (hostedWindow, Done (Rejected CallInitFirst)) /\
  on_via (answering true) pluginWindow (VStr "todo@done") (VNum 3) =
    (pluginWindow, Done (Rejected (CallbackNotFunction "number"))).
Proof.
  split.
  - apply (on_and_off_share_their_guards (answering true) hostedWindow
             hostedWindow (VStr "todo@done") (VFun 0) CallInitFirst eq_refl).
    discriminate.
  - apply (on_and_off_share_their_guards (answering true) pluginWindow
             pluginWindow (VStr "todo@done") (VNum 3)
             (CallbackNotFunction "number") eq_refl).
    discriminate.
Defined.

Lemma events_need_listed_permissions_witness :
  exists permission row,
    requiredPermission pluginWindow "inbox" "send" = VStr permission /\
    assoc "inbox" permissions = Some row /\ In permission row.
Proof.
  destruct (events_need_listed_permissions pluginWindow "inbox" "send" eq_refl)
    as (permission & row & R & A & I & _).
  exists permission, row. now repeat split.
Defined.

Lemma init_again_overwrites_witness :
  uomaPluginId
    (performAll hostedWindow
       (map CallInit [ VStr "plugin-abcd"; VNum 1; VStr "other-plugin";
                       VStr "ab" ])) = VStr "other-plugin" /\
  storageListeners
    (performAll hostedWindow
       (map CallInit [ VStr "plugin-abcd"; VNum 1; VStr "other-plugin";
                       VStr "ab" ])) = 2%nat.
Proof.
  destruct (init_again_overwrites hostedWindow (VBool true)
              [ VStr "plugin-abcd"; VNum 1; VStr "other-plugin"; VStr "ab" ]
              eq_refl eq_refl eq_refl) as (U & L & _).
  split; [exact U | exact L].
Defined.

Lemma session_is_never_lost_witness :
  notInitialized
    (performAll pluginWindow
       [ CallInit (VStr "ab"); CallOff (VStr "todo@done") (VFun 0);
         Browser (TimerEvent 3) ]) = false.
Proof.
  apply (session_is_never_lost pluginWindow
           [ CallInit (VStr "ab"); CallOff (VStr "todo@done") (VFun 0);
             Browser (TimerEvent 3) ] eq_refl).
Defined.

Lemma unrelated_messages_change_nothing_witness :
  dispatch (fst (checkPermission_exchange pluginWindow "todo/list:read"))
    (MessageEvent false (VStr "checkPermission:todo/list:read") (VBool true)) =
  fst (checkPermission_exchange pluginWindow "todo/list:read").
Proof.
  apply (unrelated_messages_change_nothing
           (fst (checkPermission_exchange pluginWindow "todo/list:read"))
           false (VStr "checkPermission:todo/list:read") (VBool true)).
  now left.
Defined.

Lemma off_undoes_on_witness :
  snd (off (fst (on_resume pluginWindow "todo@done" "todo" "done" (VFun 0)
                   (Resolved (VBool true))))
         (VStr "todo@done") (VFun 0)) = Resolved (VFun 0).
Proof.
  apply (off_undoes_on pluginWindow "todo@done" "todo" "done" (VFun 0)
           (VBool true) eq_refl eq_refl eq_refl eq_refl eq_refl eq_refl).
Defined.

Lemma registry_holds_functions_of_catalogue_events_witness :
  registryClean
    (fst (on_resume hostedWindow "todo@done" "todo" "done" (VFun 0)
            (Resolved (VBool true)))).
Proof.
  apply (proj1 (proj2 registry_holds_functions_of_catalogue_events)
           hostedWindow "todo@done" "todo" "done" (VFun 0)
           (Resolved (VBool true))
           (proj1 registry_holds_functions_of_catalogue_events
              false (Some (VBool true)) (fun _ _ => VUndefined))
           eq_refl eq_refl).
Defined.

Lemma on_passes_on_a_refusal_witness :
  on_via (answering false) pluginWindow (VStr "todo@done") (VFun 0) =
    (pluginWindow, Done (Rejected (NeedsPermission (VStr "list:read")))) /\
  on_via checkPermission pluginWindow (VStr "todo@done") (VFun 0) =
    (pluginWindow, Done (Rejected (InvalidPermissionName "list:read"))).
Proof.
  split.
  - apply (proj2 (on_passes_on_a_refusal (answering false) pluginWindow
                    pluginWindow "todo@done" "todo" "done" (VFun 0)
                    (Resolved (VBool false))
                    eq_refl eq_refl eq_refl eq_refl eq_refl)
             (VBool false) eq_refl eq_refl).
  - apply (proj1 (on_passes_on_a_refusal checkPermission pluginWindow
                    pluginWindow "todo@done" "todo" "done" (VFun 0)
                    (Rejected (InvalidPermissionName "list:read"))
                    eq_refl eq_refl eq_refl eq_refl eq_refl)
             (InvalidPermissionName "list:read") eq_refl).
Defined.
